(** * php-runner: a shallow embedding of [main.go] and its properties

    The launcher picks one of several installed PHP executables: it loads
    a [label: path] table, walks from the working directory towards the
    root looking for a [.php-version] marker, falls back to the PHP found
    on PATH, to the default label and to an arbitrary table entry, and
    finally runs the chosen executable, forwarding its exit status.

    Go values are embedded as follows.
    - [string] is a Go string, i.e. a sequence of bytes; the byte-level
      algorithms of the Go library ([strings.TrimSpace], [filepath.Clean],
      [bufio.ScanLines], the regular expression of the probe) run on
      [list ascii] and are wrapped with [bytes]/[str].
    - [map[string]string] is [gmap string string]; indexing a missing key
      gives the empty string, as in Go.
    - The file system is a finite map from path names to nodes; every
      operation of package [os] is a function of that map and emits one
      [event], so that "reads only", "never invoked" and "before" are
      statements about the emitted event list.  [os.Stat] tells a path
      at which nothing is (ENOENT) from a path that cannot be looked up
      (ENOTDIR, ENAMETOOLONG, EINVAL); permissions are not modelled.
    - [os.Exit] is an [outcome]; the unspecified iteration order of a Go
      map is a seed supplied by the environment.
    - [path/filepath] is modelled for the slash-separated (Unix) flavour. *)

From Stdlib Require Import ZArith NArith Ascii String Lia.
From stdpp Require Import base option list gmap strings.

Local Open Scope Z_scope.
Local Open Scope nat_scope.

(** ** Bytes *)

Definition bytes (s : string) : list ascii := String.list_ascii_of_string s.
Definition str (l : list ascii) : string := String.string_of_list_ascii l.

Definition byteIn (lo hi : N) (c : ascii) : bool :=
  ((lo <=? N_of_ascii c) && (N_of_ascii c <=? hi))%N.
Definition byteIs (n : N) (c : ascii) : bool := (N_of_ascii c =? n)%N.

Definition lineFeed : ascii := "010"%char.
Definition colon : ascii := ":"%char.

(** ** Package [unicode/utf8] and [unicode]: the encodings of the runes
    for which [unicode.IsSpace] holds.  One byte: TAB, LF, VT, FF, CR
    and SPACE.  Two bytes: U+0085 and U+00A0.  Three bytes: U+1680,
    U+2000..U+200A, U+2028, U+2029, U+202F, U+205F and U+3000. *)

Module Unicode.

Definition isSpace1 (a : ascii) : bool := byteIn 9 13 a || byteIs 32 a.

Definition isSpace2 (a b : ascii) : bool :=
  byteIs 194 a && (byteIs 133 b || byteIs 160 b).

Definition isSpace3 (a b c : ascii) : bool :=
  (byteIs 225 a && byteIs 154 b && byteIs 128 c)
  || (byteIs 226 a && byteIs 128 b
      && (byteIn 128 138 c || byteIs 168 c || byteIs 169 c || byteIs 175 c))
  || (byteIs 226 a && byteIs 129 b && byteIs 159 c)
  || (byteIs 227 a && byteIs 128 b && byteIs 128 c).

End Unicode.

(** ** Package [strings] *)

Module Strings.

(** [trimFront sp2 sp3 l] removes every leading white-space rune of [l];
    [sp2] and [sp3] recognise the two- and three-byte encodings in the
    order in which the bytes are met. *)
Fixpoint trimFront (sp2 : ascii -> ascii -> bool)
    (sp3 : ascii -> ascii -> ascii -> bool) (l : list ascii) : list ascii :=
  match l with
  | [] => []
  | a :: l1 =>
      if Unicode.isSpace1 a then trimFront sp2 sp3 l1
      else match l1 with
           | [] => l
           | b :: l2 =>
               if sp2 a b then trimFront sp2 sp3 l2
               else match l2 with
                    | [] => l
                    | c :: l3 =>
                        if sp3 a b c then trimFront sp2 sp3 l3 else l
                    end
           end
  end.

(** [strings.TrimLeftFunc(s, unicode.IsSpace)]. *)
Definition trimLeft (l : list ascii) : list ascii :=
  trimFront Unicode.isSpace2 Unicode.isSpace3 l.

(** [strings.TrimRightFunc(s, unicode.IsSpace)]: the last rune is a white
    space exactly when the bytes end with its encoding, so the right trim
    is the left trim of the reversed bytes with reversed encodings. *)
Definition trimRight (l : list ascii) : list ascii :=
  reverse (trimFront (fun b a => Unicode.isSpace2 a b)
                     (fun c b a => Unicode.isSpace3 a b c) (reverse l)).

(** [strings.TrimSpace]. *)
Definition TrimSpace (s : string) : string :=
  str (trimRight (trimLeft (bytes s))).

(** [strings.HasPrefix]. *)
Definition HasPrefix (s pre : string) : bool := String.prefix pre s.

(** [cut sep l] splits [l] around the first occurrence of [sep]. *)
Fixpoint cut (sep : ascii) (l : list ascii) : option (list ascii * list ascii) :=
  match l with
  | [] => None
  | a :: l' =>
      if decide (a = sep) then Some ([], l')
      else match cut sep l' with
           | Some (x, y) => Some (a :: x, y)
           | None => None
           end
  end.

(** [strings.SplitN(s, sep, 2)] for a one-byte separator. *)
Definition SplitN2 (s : string) (sep : ascii) : list string :=
  match cut sep (bytes s) with
  | Some (x, y) => [str x; str y]
  | None => [s]
  end.

(** [strings.Split(s, sep)] for a one-byte separator, on bytes. *)
Fixpoint split (sep : ascii) (l : list ascii) : list (list ascii) :=
  match l with
  | [] => [[]]
  | a :: l' =>
      if decide (a = sep) then [] :: split sep l'
      else match split sep l' with
           | e :: es => (a :: e) :: es
           | [] => [[a]]
           end
  end.

(** [strings.Join(elems, sep)]. *)
Fixpoint Join (elems : list string) (sep : string) : string :=
  match elems with
  | [] => ""
  | [e] => e
  | e :: rest => e +:+ sep +:+ Join rest sep
  end.

End Strings.

(** ** Package [path/filepath], slash-separated flavour *)

Module Filepath.

Definition Separator : ascii := "/"%char.

(** The element loop of [filepath.Clean].  [out] is the output buffer as
    a stack of elements, last element first.  An empty element and [.]
    are dropped; [..] removes the last real element if there is one, is
    dropped at the root of a rooted path, and is kept otherwise. *)
Fixpoint cleanElems (rooted : bool) (es out : list (list ascii)) : list (list ascii) :=
  match es with
  | [] => out
  | e :: es' =>
      if decide (e = []) then cleanElems rooted es' out
      else if decide (e = bytes ".") then cleanElems rooted es' out
      else if decide (e = bytes "..") then
        match out with
        | top :: rest =>
            if decide (top = bytes "..") then cleanElems rooted es' (e :: out)
            else cleanElems rooted es' rest
        | [] => if rooted then cleanElems rooted es' [] else cleanElems rooted es' [e]
        end
      else cleanElems rooted es' (e :: out)
  end.

(** [joinElems] writes the elements of the buffer with separators. *)
Fixpoint joinElems (es : list (list ascii)) : list ascii :=
  match es with
  | [] => []
  | [e] => e
  | e :: rest => e ++ Separator :: joinElems rest
  end.

Definition isRooted (l : list ascii) : bool :=
  match l with
  | a :: _ => bool_decide (a = Separator)
  | [] => false
  end.

Definition cleanBytes (l : list ascii) : list ascii :=
  match l with
  | [] => bytes "."
  | _ =>
      let out := reverse (cleanElems (isRooted l) (Strings.split Separator l) []) in
      if isRooted l then Separator :: joinElems out
      else match out with
           | [] => bytes "."
           | _ => joinElems out
           end
  end.

(** [filepath.Clean]. *)
Definition Clean (path : string) : string := str (cleanBytes (bytes path)).

(** [dirPrefix l] is [path[:i+1]] for the last separator index [i] of
    [path] (the empty prefix when there is none). *)
Fixpoint dirPrefix (l : list ascii) : list ascii :=
  match l with
  | [] => []
  | a :: l' =>
      if decide (a = Separator) then a :: dirPrefix l'
      else match dirPrefix l' with
           | [] => []
           | p => a :: p
           end
  end.

(** [filepath.Dir]. *)
Definition Dir (path : string) : string := str (cleanBytes (dirPrefix (bytes path))).

(** [filepath.Join]: the elements from the first non-empty one on are
    joined with separators and cleaned. *)
Fixpoint Join (elem : list string) : string :=
  match elem with
  | [] => ""
  | e :: rest =>
      if decide (e = "") then Join rest else Clean (Strings.Join elem "/")
  end.

(** A bound on the number of [Dir] steps from [path] to its fixed point. *)
Definition depth (path : string) : nat :=
  if decide (path = ".") then 0 else S (String.length path).

End Filepath.

(** ** Package [bufio]: a [Scanner] with the [ScanLines] split function *)

Module Bufio.

(** [bufio.MaxScanTokenSize]: a line that does not end within the
    buffer makes [Scan] stop with [ErrTooLong]. *)
Definition MaxScanTokenSize : N := 65536.

(** [dropCR] of [bufio]. *)
Definition dropCR (l : list ascii) : list ascii :=
  match reverse l with
  | c :: r => if decide (c = "013"%char) then reverse r else l
  | [] => l
  end.

(** The raw lines of the data: the text between line feeds; a last line
    without line feed counts when it is not empty. *)
Definition rawLines (data : list ascii) : list (list ascii) :=
  let ls := Strings.split "010"%char data in
  match reverse ls with
  | [] :: r => reverse r
  | _ => ls
  end.

Definition fits (l : list ascii) : bool := (N.of_nat (length l) <? MaxScanTokenSize)%N.

(** [scanAll raw] is what the loop [for scanner.Scan() { scanner.Text() }]
    sees on the raw lines: the tokens up to the first line that does not
    fit, and whether [scanner.Err()] is set afterwards. *)
Fixpoint scanAll (raw : list (list ascii)) : list string * bool :=
  match raw with
  | [] => ([], false)
  | l :: rest =>
      if fits l then
        let '(ts, e) := scanAll rest in (str (dropCR l) :: ts, e)
      else ([], true)
  end.

Definition Scan (data : string) : list string * bool := scanAll (rawLines (bytes data)).

End Bufio.

(** ** The regular expression [PHP (\d+\.\d+)] of the probe *)

Module Regexp.

Definition isDigit (c : ascii) : bool := byteIn 48 57 c.

(** The longest run of digits at the front, and what follows it. *)
Fixpoint digits (l : list ascii) : list ascii * list ascii :=
  match l with
  | c :: l' =>
      if isDigit c then let '(d, r) := digits l' in (c :: d, r) else ([], l)
  | [] => ([], [])
  end.

Fixpoint stripPrefix (p l : list ascii) : option (list ascii) :=
  match p, l with
  | [], _ => Some l
  | a :: p', b :: l' => if decide (a = b) then stripPrefix p' l' else None
  | _ :: _, [] => None
  end.

(** A match of the whole expression starting at the front of [l]; the
    value is the text of the group. *)
Definition matchHere (l : list ascii) : option (list ascii) :=
  match stripPrefix (bytes "PHP ") l with
  | Some r =>
      match digits r with
      | (d1, dot :: r1) =>
          if negb (bool_decide (d1 = [])) && bool_decide (dot = "."%char) then
            match digits r1 with
            | ([], _) => None
            | (d2, _) => Some (d1 ++ dot :: d2)
            end
          else None
      | _ => None
      end
  | None => None
  end.

(** [FindStringSubmatch]: the leftmost match; [matches[1]] when found. *)
Fixpoint findGroup (l : list ascii) : option (list ascii) :=
  match matchHere l with
  | Some g => Some g
  | None => match l with
            | [] => None
            | _ :: l' => findGroup l'
            end
  end.

End Regexp.

(** ** Package [os]: the file system, the environment, the events *)

Inductive node : Type :=
  | File (content : string)
  | Directory.

(** The errors with which [os.Stat] fails on Linux, permissions apart.
    [os.IsNotExist] holds of the first one only. *)
Inductive oserror : Type :=
  | ErrNotExist       (* ENOENT: no such file or directory *)
  | ErrNotDir         (* ENOTDIR: a component of the path is not a directory *)
  | ErrNameTooLong    (* ENAMETOOLONG: the path or one of its components is too long *)
  | ErrInvalid.       (* EINVAL: a NUL byte in the path *)

#[global] Instance oserror_eq_dec : EqDecision oserror.
Proof. solve_decision. Defined.

Abbreviation FileSys := (gmap string node).

(** [type Config map[string]string]. *)
Abbreviation Config := (gmap string string).

(** The errors built by [fmt.Errorf] in the program, with their
    arguments in place of the formatted text. *)
Inductive error : Type :=
  | ErrCannotOpen                                      (* cannot open config file *)
  | ErrInvalidFormat (lineNumber : nat) (line : string) (* invalid format on line %d: %s *)
  | ErrEmptyField (lineNumber : nat) (line : string)    (* empty version or path on line %d: %s *)
  | ErrReading                                         (* error reading config file *)
  | ErrNoValidVersions                                 (* no valid PHP versions found in configuration *)
  | ErrConfigNotFound (listing : string)               (* config file not found in any of these locations:\n%s *)
  | ErrNoLocations.                                    (* could not determine config file locations *)

Inductive result (A : Type) : Type :=
  | Ok (a : A)
  | Err (e : error).
Arguments Ok {A} a.
Arguments Err {A} e.

(** The lines printed by [fmt.Printf], with their arguments. *)
Inductive message : Type :=
  | MsgErrorFindingConfig (e : error)
  | MsgErrorLoadingConfig (configPath : string) (e : error)
  | MsgErrorGetwd
  | MsgVersionNotInConfig (version : string)
  | MsgExecutableNotFound (phpPath : string)
  | MsgErrorExecuting
  | MsgErrorExecutablePath
  | MsgWarnExecutableNotFound (path : string) (lineNumber : nat)
  | MsgNoValidVersion
  | MsgWarnCouldNotCreate (versionPath : string)
  | MsgCreated (versionPath version : string).

Inductive event : Type :=
  | EvStat (path : string)
  | EvOpen (path : string)
  | EvReadFile (path : string)
  | EvWriteFile (path data : string)
  | EvExec (name : string) (args : list string)
  | EvRun (path : string) (args : list string)
  | EvPrint (m : message).

(** What [cmd.Run] meets: the child could not be started, or it ran and
    was waited for, leaving a [syscall.WaitStatus] (a [uint32]). *)
Inductive runResult : Type :=
  | StartError
  | Finished (status : Z).

(** What the process finds around it and cannot change. *)
Record Env : Type := {
  GOOS_windows : bool;                     (* runtime.GOOS == "windows" *)
  Getenv : string -> string;               (* os.Getenv *)
  Executable : option string;              (* os.Executable, None on error *)
  Getwd : option string;                   (* os.Getwd, None on error *)
  Args : list string;                      (* os.Args[1:] *)
  phpOutput : option string;               (* stdout of [php --version], None when Output fails *)
  runChild : string -> list string -> runResult;
  mapSeed : nat                            (* where the runtime starts a map iteration *)
}.

(** A computation reads and changes the file system and emits events. *)
Definition IO (A : Type) : Type := FileSys -> A * FileSys * list event.

Definition ret {A} (a : A) : IO A := fun fs => (a, fs, []).

Definition bind {A B} (m : IO A) (k : A -> IO B) : IO B :=
  fun fs =>
    let '(a, fs1, e1) := m fs in
    let '(b, fs2, e2) := k a fs1 in
    (b, fs2, e1 ++ e2).

Notation "x <- m ;; k" := (bind m (fun x => k))
  (at level 100, m at next level, right associativity).
Notation "m ;;; k" := (bind m (fun _ => k))
  (at level 100, right associativity).

Definition valueOf {A} (r : A * FileSys * list event) : A := r.1.1.
Definition fsOf {A} (r : A * FileSys * list event) : FileSys := r.1.2.
Definition eventsOf {A} (r : A * FileSys * list event) : list event := r.2.

Module OS.

(** PATH_MAX counts the closing NUL; NAME_MAX bounds one component. *)
Definition pathMax : nat := 4096.
Definition nameMax : nat := 255.

(** Some component of the path has more than [nameMax] bytes; [run]
    counts the bytes of the component under way. *)
Fixpoint nameTooLong (run : nat) (l : list ascii) : bool :=
  match l with
  | [] => false
  | c :: l' =>
      if bool_decide (c = Filepath.Separator) then nameTooLong 0 l'
      else (nameMax <=? run) || nameTooLong (S run) l'
  end.

(** The directories that a path goes through: its non-empty proper
    prefixes that a separator follows. *)
Fixpoint through (seen rest : list ascii) : list string :=
  match rest with
  | [] => []
  | c :: rest' =>
      (if bool_decide (c = Filepath.Separator) && bool_decide (seen ≠ [])
       then [str seen] else [])
      ++ through (seen ++ [c]) rest'
  end.

Definition isFile (fs : FileSys) (path : string) : bool :=
  match fs !! path with
  | Some (File _) => true
  | _ => false
  end.

(** The error of [stat] at a path to which the map binds nothing: the
    name cannot be passed to the system, or the path is too long, or it
    goes through a regular file, or one of its names is too long;
    otherwise nothing is there.  A directory that the map does not
    mention is no obstacle on the way. *)
Definition statError (fs : FileSys) (path : string) : oserror :=
  if existsb (byteIs 0) (bytes path) then ErrInvalid
  else if pathMax <=? length (bytes path) then ErrNameTooLong
  else if existsb (isFile fs) (through [] (bytes path)) then ErrNotDir
  else if nameTooLong 0 (bytes path) then ErrNameTooLong
  else ErrNotExist.

(** [os.Stat], for its error: [None] is [err == nil].  What the map
    binds is there. *)
Definition Stat (path : string) : IO (option oserror) :=
  fun fs =>
    (match fs !! path with
     | Some _ => None
     | None => Some (statError fs path)
     end, fs, [EvStat path]).

(** [os.IsNotExist(err)]: of the errors of [os.Stat], ENOENT alone. *)
Definition IsNotExist (err : option oserror) : bool :=
  match err with
  | Some ErrNotExist => true
  | _ => false
  end.

(** [err == nil]. *)
Definition isNil (err : option oserror) : bool :=
  match err with
  | None => true
  | Some _ => false
  end.

(** [os.Open] of a file that is then read to the end. *)
Definition Open (path : string) : IO (option node) :=
  fun fs => (fs !! path, fs, [EvOpen path]).

(** [os.ReadFile]: the content of a regular file, [None] on error. *)
Definition ReadFile (path : string) : IO (option string) :=
  fun fs =>
    (match fs !! path with
     | Some (File content) => Some content
     | _ => None
     end, fs, [EvReadFile path]).

(** [os.WriteFile]: creates or truncates the file; fails on a directory.
    [true] when [err == nil]. *)
Definition WriteFile (path data : string) : IO bool :=
  fun fs =>
    match fs !! path with
    | Some Directory => (false, fs, [EvWriteFile path data])
    | _ => (true, <[path := File data]> fs, [EvWriteFile path data])
    end.

Definition Printf (m : message) : IO unit :=
  fun fs => (tt, fs, [EvPrint m]).

End OS.

(** [syscall.WaitStatus] on Linux. *)
Module Syscall.

Definition mask : Z := 0x7F.
Definition exited : Z := 0x00.
Definition shift : Z := 8.

Definition Exited (w : Z) : bool := (Z.land w mask =? exited)%Z.

Definition ExitStatus (w : Z) : Z :=
  if Exited w then Z.land (Z.shiftr w shift) 0xFF else (-1)%Z.

(** The status left by a child that called [exit(code)]. *)
Definition exitedWith (code : Z) : Z := Z.shiftl code shift.

End Syscall.

(** [os/exec]. *)
Module Exec.

(** [exec.Command(name, args...).Output()]. *)
Definition Output (env : Env) (name : string) (args : list string) : IO (option string) :=
  fun fs => (phpOutput env, fs, [EvExec name args]).

(** [cmd.Run()] with the standard streams of the parent. *)
Definition Run (env : Env) (path : string) (args : list string) : IO runResult :=
  fun fs => (runChild env path args, fs, [EvRun path args]).

End Exec.

(** ** The program *)

Definition configFileName : string := "php-runner.yaml".
Definition versionFile : string := ".php-version".
Definition defaultVersion : string := "8.2".

Definition newline : string := String lineFeed "".

(** [config[key]]: the empty string for a missing key. *)
Definition index (config : Config) (key : string) : string :=
  default "" (config !! key).

(** [os.Exit] ends the process; otherwise a function returns. *)
Inductive outcome (A : Type) : Type :=
  | Return (a : A)
  | Exit (code : Z).
Arguments Return {A} a.
Arguments Exit {A} code.

(** The body of [for scanner.Scan()] in [loadConfig], on the lines that
    the scanner delivers; [lineNumber] counts the lines already seen. *)
Fixpoint loadLines (lines : list string) (lineNumber : nat) (config : Config)
    : IO (result Config) :=
  match lines with
  | [] => ret (Ok config)
  | text :: rest =>
      let lineNumber := S lineNumber in
      let line := Strings.TrimSpace text in
      if bool_decide (line = "") || Strings.HasPrefix line "#" then
        loadLines rest lineNumber config
      else
        let parts := Strings.SplitN2 line colon in
        if bool_decide (length parts ≠ 2) then
          ret (Err (ErrInvalidFormat lineNumber line))
        else
          let version := Strings.TrimSpace (nth 0 parts "") in
          let path := Strings.TrimSpace (nth 1 parts "") in
          if bool_decide (version = "") || bool_decide (path = "") then
            ret (Err (ErrEmptyField lineNumber line))
          else
            err <- OS.Stat path ;;
            if OS.IsNotExist err then
              OS.Printf (MsgWarnExecutableNotFound path lineNumber) ;;;
              loadLines rest lineNumber config
            else loadLines rest lineNumber (<[version := path]> config)
  end.

(** What the scanner delivers from an opened node: reading a directory
    fails at once. *)
Definition scanNode (nd : node) : list string * bool :=
  match nd with
  | File data => Bufio.Scan data
  | Directory => ([], true)
  end.

Definition loadConfig (configPath : string) : IO (result Config) :=
  file <- OS.Open configPath ;;
  match file with
  | None => ret (Err ErrCannotOpen)
  | Some nd =>
      let '(lines, scanErr) := scanNode nd in
      r <- loadLines lines 0 ∅ ;;
      match r with
      | Err e => ret (Err e)
      | Ok config =>
          if scanErr then ret (Err ErrReading)
          else if bool_decide (size config = 0) then ret (Err ErrNoValidVersions)
          else ret (Ok config)
      end
  end.

(** The loop of [findPhpVersionFile].  [fuel] bounds the number of
    iterations; [None] means that the bound was hit, which
    [findPhpVersionFile] never lets happen (see [findLoop_fuel]). *)
Fixpoint findLoop (fuel : nat) (dir : string) : IO (option string) :=
  match fuel with
  | O => ret None
  | S fuel' =>
      let versionPath := Filepath.Join [dir; versionFile] in
      r <- OS.ReadFile versionPath ;;
      let version := match r with
                     | Some content => Strings.TrimSpace content
                     | None => ""
                     end in
      if bool_decide (version ≠ "") then ret (Some version)
      else
        let parent := Filepath.Dir dir in
        if bool_decide (parent = dir) then ret (Some "")
        else findLoop fuel' parent
  end.

Definition findPhpVersionFile (startDir : string) : IO string :=
  r <- findLoop (S (Filepath.depth startDir)) startDir ;;
  ret (default "" r).

Definition getCurrentPhpVersion (env : Env) : IO string :=
  output <- Exec.Output env "php" ["--version"] ;;
  match output with
  | None => ret ""
  | Some out =>
      match Regexp.findGroup (bytes out) with
      | Some g => ret (str g)
      | None => ret ""
      end
  end.

Definition createPhpVersionFile (dir version : string) : IO unit :=
  let versionPath := Filepath.Join [dir; versionFile] in
  ok <- OS.WriteFile versionPath (version +:+ newline) ;;
  if ok then OS.Printf (MsgCreated versionPath version)
  else OS.Printf (MsgWarnCouldNotCreate versionPath).

(** The first key that [for ver := range config] yields: the runtime
    starts the iteration at a place of its own choice. *)
Definition rangeFirst (seed : nat) (config : Config) : option string :=
  (map_to_list config).*1 !! (seed `mod` size config).

Definition getPhpVersion (env : Env) (cwd : string) (config : Config)
    : IO (outcome string) :=
  version <- findPhpVersionFile cwd ;;
  if bool_decide (version ≠ "") && bool_decide (index config version ≠ "") then
    ret (Return version)
  else
    currentVersion <- getCurrentPhpVersion env ;;
    if bool_decide (currentVersion ≠ "")
       && bool_decide (index config currentVersion ≠ "") then
      createPhpVersionFile cwd currentVersion ;;;
      ret (Return currentVersion)
    else if bool_decide (index config defaultVersion ≠ "") then
      createPhpVersionFile cwd defaultVersion ;;;
      ret (Return defaultVersion)
    else
      match rangeFirst (mapSeed env) config with
      | Some ver =>
          createPhpVersionFile cwd ver ;;;
          ret (Return ver)
      | None =>
          OS.Printf MsgNoValidVersion ;;;
          ret (Exit 1%Z)
      end.

(** [if v := os.Getenv(name); v != "" { append(Join(v, file)) }]. *)
Definition envPath (env : Env) (name file : string) : list string :=
  if bool_decide (Getenv env name ≠ "") then [Filepath.Join [Getenv env name; file]]
  else [].

(** The value of [searchPaths] when the loop of [findConfigFile] starts. *)
Definition searchPaths (env : Env) : list string :=
  (if GOOS_windows env then
     envPath env "USERPROFILE" configFileName
     ++ envPath env "APPDATA" configFileName
     ++ envPath env "PROGRAMDATA" configFileName
   else
     envPath env "HOME" ("." +:+ configFileName)
     ++ [Filepath.Join ["/etc"; configFileName]]
     ++ [Filepath.Join ["/usr/local"; configFileName]])
  ++ match Executable env with
     | Some exePath => [Filepath.Join [Filepath.Dir exePath; configFileName]]
     | None => []
     end.

(** [for _, path := range searchPaths]: the first path that [os.Stat]
    accepts. *)
Fixpoint firstExisting (paths : list string) : IO (option string) :=
  match paths with
  | [] => ret None
  | path :: rest =>
      err <- OS.Stat path ;;
      if OS.isNil err then ret (Some path) else firstExisting rest
  end.

Definition findConfigFile (env : Env) : IO (string * option error) :=
  let searchPaths := searchPaths env in
  hit <- firstExisting searchPaths ;;
  match hit with
  | Some path => ret (path, None)
  | None =>
      match searchPaths with
      | first :: _ =>
          ret (first, Some (ErrConfigNotFound (Strings.Join searchPaths newline)))
      | [] => ret ("", Some ErrNoLocations)
      end
  end.

(** [main]; the value is the exit status of the process. *)
Definition main (env : Env) : IO Z :=
  found <- findConfigFile env ;;
  match found with
  | (_, Some e) => OS.Printf (MsgErrorFindingConfig e) ;;; ret 1%Z
  | (configPath, None) =>
      loaded <- loadConfig configPath ;;
      match loaded with
      | Err e => OS.Printf (MsgErrorLoadingConfig configPath e) ;;; ret 1%Z
      | Ok config =>
          match Getwd env with
          | None => OS.Printf MsgErrorGetwd ;;; ret 1%Z
          | Some cwd =>
              resolved <- getPhpVersion env cwd config ;;
              match resolved with
              | Exit code => ret code
              | Return version =>
                  match config !! version with
                  | None => OS.Printf (MsgVersionNotInConfig version) ;;; ret 1%Z
                  | Some phpPath =>
                      err <- OS.Stat phpPath ;;
                      if OS.IsNotExist err then
                        OS.Printf (MsgExecutableNotFound phpPath) ;;; ret 1%Z
                      else
                        ran <- Exec.Run env phpPath (Args env) ;;
                        match ran with
                        | StartError => OS.Printf MsgErrorExecuting ;;; ret 1%Z
                        | Finished status =>
                            if bool_decide (Syscall.ExitStatus status = 0%Z) then ret 0%Z
                            else ret (Syscall.ExitStatus status)
                        end
                  end
              end
          end
      end
  end.

(** ** The other discovery of the configuration file

    The second Go file of the repository carries a variant of [main],
    written against [io/ioutil], with the same [loadConfig],
    [getPhpVersion] and helpers and with [getConfig] in place of
    [findConfigFile]. *)

Module Legacy.

Definition configFile : string := "php-runner.yaml".

(** [os.UserHomeDir]: the value of [HOME] ([USERPROFILE] on Windows);
    the flag is [err != nil], raised when the variable is empty. *)
Definition UserHomeDir (env : Env) : string * bool :=
  let v := Getenv env (if GOOS_windows env then "USERPROFILE" else "HOME") in
  (v, bool_decide (v = "")).

(** [fileExist]: something other than a directory is at the path.
    [getConfig] calls it with the bare file name only, which goes
    through no directory and is short: there [os.Stat] fails only when
    nothing is at the path. *)
Definition fileExist (path : string) : IO bool :=
  fun fs =>
    (match fs !! path with
     | Some (File _) => true
     | _ => false
     end, fs, [EvStat path]).

(** [loadConfig] followed by [if err != nil { fmt.Printf(...) }]. *)
Definition loadReporting (configPath : string) : IO (result Config) :=
  loaded <- loadConfig configPath ;;
  match loaded with
  | Err e => OS.Printf (MsgErrorLoadingConfig configPath e) ;;; ret (Err e)
  | Ok config => ret (Ok config)
  end.

Definition getConfig (env : Env) : IO (outcome (result Config)) :=
  let '(homeDir, err) := UserHomeDir env in
  let configPath := Filepath.Join [homeDir; configFile] in
  useHome <- (if err then fileExist configPath else ret false) ;;
  if useHome then
    r <- loadReporting configPath ;; ret (Return r)
  else
    match Executable env with
    | None => OS.Printf MsgErrorExecutablePath ;;; ret (Exit 1%Z)
    | Some exePath =>
        let exeDir := Filepath.Dir exePath in
        r <- loadReporting (Filepath.Join [exeDir; configFile]) ;; ret (Return r)
    end.

(** [main] of the variant.  [config, err := getConfig()] is followed at
    once by [cwd, err := os.Getwd()], so the error of [getConfig] is
    never looked at; after a failed load [config] is the nil map, which
    reads as the empty table. *)
Definition main (env : Env) : IO Z :=
  got <- getConfig env ;;
  match got with
  | Exit code => ret code
  | Return loaded =>
      let config := match loaded with
                    | Ok config => config
                    | Err _ => ∅
                    end in
      match Getwd env with
      | None => OS.Printf MsgErrorGetwd ;;; ret 1%Z
      | Some cwd =>
          resolved <- getPhpVersion env cwd config ;;
          match resolved with
          | Exit code => ret code
          | Return version =>
              match config !! version with
              | None => OS.Printf (MsgVersionNotInConfig version) ;;; ret 1%Z
              | Some phpPath =>
                  err <- OS.Stat phpPath ;;
                  if OS.IsNotExist err then
                    OS.Printf (MsgExecutableNotFound phpPath) ;;; ret 1%Z
                  else
                    ran <- Exec.Run env phpPath (Args env) ;;
                    match ran with
                    | StartError => OS.Printf MsgErrorExecuting ;;; ret 1%Z
                    | Finished status =>
                        if bool_decide (Syscall.ExitStatus status = 0%Z) then ret 0%Z
                        else ret (Syscall.ExitStatus status)
                    end
              end
          end
      end
  end.

End Legacy.

(** * Vocabulary of the properties *)

(** ** Path lengths *)

(** The bytes an element list takes when every element is followed by
    one separator. *)
Definition weight (es : list (list ascii)) : nat :=
  foldr (fun e n => S (length e) + n) 0 es.

(** The same, empty elements left out. *)
Definition weightNonEmpty (es : list (list ascii)) : nat :=
  foldr (fun e n => match e with [] => n | _ => S (length e) + n end) 0 es.

(** ** Marker files and the chain of directories *)

(** The label that the marker file of directory [dir] holds: its trimmed
    content, and nothing when there is no readable marker file. *)
Definition markerLabel (fs : FileSys) (dir : string) : string :=
  match fs !! Filepath.Join [dir; versionFile] with
  | Some (File content) => Strings.TrimSpace content
  | _ => ""
  end.

(** The directories from [dir] upwards, each the parent of the one
    before, up to the directory that is its own parent. *)
Fixpoint chain (fuel : nat) (dir : string) : list string :=
  match fuel with
  | O => []
  | S fuel' =>
      dir :: (if decide (Filepath.Dir dir = dir) then []
              else chain fuel' (Filepath.Dir dir))
  end.

Definition ancestors (dir : string) : list string :=
  chain (S (Filepath.depth dir)) dir.

(** The read that the locator issues for a directory. *)
Definition readMarker (dir : string) : event :=
  EvReadFile (Filepath.Join [dir; versionFile]).

Definition isRead (e : event) : Prop := ∃ path, e = EvReadFile path.
Definition isWrite (e : event) : Prop := ∃ path data, e = EvWriteFile path data.
Definition isExec (e : event) : Prop := ∃ name args, e = EvExec name args.

(** The first directory of a list that has a label, with the
    directories before it; or none of them has one. *)
Inductive firstLabel (fs : FileSys) (dirs : list string)
    : string -> list string -> Prop :=
  | FirstLabelAt pre d post :
      dirs = pre ++ d :: post ->
      Forall (fun x => markerLabel fs x = "") pre ->
      markerLabel fs d ≠ "" ->
      firstLabel fs dirs (markerLabel fs d) (pre ++ [d])
  | FirstLabelNone :
      Forall (fun x => markerLabel fs x = "") dirs ->
      firstLabel fs dirs "" dirs.

(** ** The resolver *)

Definition markerPath (dir : string) : string := Filepath.Join [dir; versionFile].

(** The test [v != "" && config[v] != ""] of [getPhpVersion]. *)
Definition usable (config : Config) (v : string) : Prop :=
  v ≠ "" ∧ index config v ≠ "".

(** The label that the probe extracts from the output of the PHP found
    on PATH; empty when there is none. *)
Definition probed (env : Env) : string :=
  match phpOutput env with
  | None => ""
  | Some out =>
      match Regexp.findGroup (bytes out) with
      | Some g => str g
      | None => ""
      end
  end.

(** The label of the fallback, in the order probe, default, any entry. *)
Definition fallback (env : Env) (config : Config) : option string :=
  if decide (usable config (probed env)) then Some (probed env)
  else if decide (index config defaultVersion ≠ "") then Some defaultVersion
  else rangeFirst (mapSeed env) config.

Definition probeEvent : event := EvExec "php" ["--version"].

(** Every path of the table is a non-empty string, as [loadConfig]
    leaves it. *)
Definition validConfig (config : Config) : Prop :=
  ∀ k p, config !! k = Some p -> k ≠ "" ∧ p ≠ "".

(** [m] run once more, [n] times over. *)
Fixpoint again {A} (n : nat) (m : IO A) : IO A :=
  match n with
  | O => m
  | S n' => m ;;; again n' m
  end.

(** ** Examples to run the program on *)

Definition exampleConfig : Config := {[ "8.2" := "/bin/php82" ]}.

Definition exampleEnv : Env := {|
  GOOS_windows := false;
  Getenv := fun name => if decide (name = "HOME") then "/home/dev" else "";
  Executable := Some "/opt/php-runner/php-runner";
  Getwd := Some "/srv/app";
  Args := ["--version"];
  phpOutput := None;
  runChild := fun _ _ => Finished (Syscall.exitedWith 3);
  mapSeed := 0
|}.

Definition exampleText : string :=
  "# interpreters" +:+ newline +:+ "8.2: /bin/php82" +:+ newline.

Definition exampleFs : FileSys :=
  <["/etc/php-runner.yaml" := File exampleText]>
    (<["/bin/php82" := File "ELF"]>
       (<["/srv/.php-version" := File (" 8.2" +:+ newline)]> ∅)).

(** ** Lines of the configuration file *)

(** The line as [loadConfig] looks at it and reports it. *)
Definition lineOf (text : string) : string := Strings.TrimSpace text.

(** A blank line or a comment. *)
Definition skipped (text : string) : Prop :=
  lineOf text = "" ∨ Strings.HasPrefix (lineOf text) "#" = true.

(** The line splits at its first separator into two parts, and the
    trimmed parts [version] and [path] are not empty. *)
Definition twoParts (text version path : string) : Prop :=
  ∃ a b, bytes (lineOf text) = a ++ colon :: b
         ∧ (colon ∉ a)
         ∧ version = Strings.TrimSpace (str a)
         ∧ path = Strings.TrimSpace (str b)
         ∧ version ≠ "" ∧ path ≠ "".

(** A line that is read as the entry [version: path]. *)
Definition entryLine (text version path : string) : Prop :=
  ¬ skipped text ∧ twoParts text version path.

(** A line that is neither skipped nor an entry. *)
Definition malformed (text : string) : Prop :=
  ¬ skipped text ∧ ¬ ∃ version path, twoParts text version path.

Definition pathExists (fs : FileSys) (path : string) : Prop := is_Some (fs !! path).

(** [os.Stat] reports that nothing is at the path: the test
    [os.IsNotExist(err)] holds. *)
Definition missing (fs : FileSys) (path : string) : Prop :=
  ¬ pathExists fs path ∧ OS.statError fs path = ErrNotExist.

(** The test [os.IsNotExist(err)] does not hold: something is at the
    path, or [os.Stat] fails for another reason than a missing file. *)
Definition kept (fs : FileSys) (path : string) : Prop :=
  pathExists fs path ∨ OS.statError fs path ≠ ErrNotExist.

(** [os.Stat] settles whether something is at the path: it finds it or
    reports it as missing. *)
Definition settled (fs : FileSys) (path : string) : Prop :=
  pathExists fs path ∨ missing fs path.

(** No line of [lines] is an entry for [version] with a path that exists. *)
Definition noEntry (fs : FileSys) (lines : list string) (version : string) : Prop :=
  Forall (fun t => ∀ path, entryLine t version path -> ¬ pathExists fs path) lines.

(** The last line for [version] among the lines whose path exists
    reads [version: path]. *)
Definition yields (fs : FileSys) (lines : list string) (version path : string) : Prop :=
  ∃ pre text post,
    lines = pre ++ text :: post
    ∧ entryLine text version path
    ∧ pathExists fs path
    ∧ noEntry fs post version.

(** The same with the test of the loop, [os.IsNotExist], in place of
    existence. *)
Definition noBinding (fs : FileSys) (lines : list string) (version : string) : Prop :=
  Forall (fun t => ∀ path, entryLine t version path -> ¬ kept fs path) lines.

Definition binds (fs : FileSys) (lines : list string) (version path : string) : Prop :=
  ∃ pre text post,
    lines = pre ++ text :: post
    ∧ entryLine text version path
    ∧ kept fs path
    ∧ noBinding fs post version.

(** What the body of the loop of [loadConfig] makes of one line. *)
Inductive lineKind : Type :=
  | LineSkipped
  | LineEntry (version path : string)
  | LineInvalid (err : nat -> error).

Definition classify (text : string) : lineKind :=
  let line := Strings.TrimSpace text in
  if bool_decide (line = "") || Strings.HasPrefix line "#" then LineSkipped
  else
    let parts := Strings.SplitN2 line colon in
    if bool_decide (length parts ≠ 2) then
      LineInvalid (fun lineNumber => ErrInvalidFormat lineNumber line)
    else
      let version := Strings.TrimSpace (nth 0 parts "") in
      let path := Strings.TrimSpace (nth 1 parts "") in
      if bool_decide (version = "") || bool_decide (path = "") then
        LineInvalid (fun lineNumber => ErrEmptyField lineNumber line)
      else LineEntry version path.

(** The events of one line that is an entry. *)
Definition entryEvents (fs : FileSys) (path : string) (lineNumber : nat) : list event :=
  if bool_decide (kept fs path) then [EvStat path]
  else [EvStat path; EvPrint (MsgWarnExecutableNotFound path lineNumber)].

(** ** Events of the launcher *)

Definition isRun (e : event) : Prop := ∃ path args, e = EvRun path args.

(** An event that neither starts the child nor reports a version as
    missing from the table. *)
Definition quiet (e : event) : Prop :=
  ¬ isRun e ∧ ∀ version, e ≠ EvPrint (MsgVersionNotInConfig version).

(** The messages after which [main] calls [os.Exit(1)]; the others are
    warnings and notices. *)
Definition fatal (m : message) : Prop :=
  match m with
  | MsgWarnExecutableNotFound _ _ | MsgWarnCouldNotCreate _ | MsgCreated _ _ => False
  | _ => True
  end.

(** An event that neither starts the child nor prints a fatal message. *)
Definition harmless (e : event) : Prop :=
  ¬ isRun e ∧ ∀ m, e = EvPrint m -> ¬ fatal m.

(** ** Discovery of the configuration file *)

(** The first path of a list at which something exists, with the paths
    probed up to it; or nothing exists at any of them. *)
Inductive firstPath (fs : FileSys) (paths : list string)
    : option string -> list string -> Prop :=
  | FirstPathAt pre p post :
      paths = pre ++ p :: post ->
      Forall (fun x => ¬ pathExists fs x) pre ->
      pathExists fs p ->
      firstPath fs paths (Some p) (pre ++ [p])
  | FirstPathNone :
      Forall (fun x => ¬ pathExists fs x) paths ->
      firstPath fs paths None paths.

(** The file [file] of the directory [dir]; no location when the
    directory is not known. *)
Definition inDirectory (dir file : string) : list string :=
  if decide (dir = "") then [] else [Filepath.Join [dir; file]].

(** The locations in the directories of the user: the file
    [.php-runner.yaml] of the home directory and, on Windows, the file
    [php-runner.yaml] of the profile directory and of the directory of
    the application data. *)
Definition userPaths (env : Env) : list string :=
  if GOOS_windows env then
    inDirectory (Getenv env "USERPROFILE") "php-runner.yaml"
    ++ inDirectory (Getenv env "APPDATA") "php-runner.yaml"
  else inDirectory (Getenv env "HOME") ".php-runner.yaml".

(** The locations shared by all users. *)
Definition systemPaths (env : Env) : list string :=
  if GOOS_windows env then inDirectory (Getenv env "PROGRAMDATA") "php-runner.yaml"
  else ["/etc/php-runner.yaml"; "/usr/local/php-runner.yaml"].

(** The location beside the running executable: the file
    [php-runner.yaml] of its directory. *)
Definition executablePaths (env : Env) : list string :=
  match Executable env with
  | Some exePath => [Filepath.Join [Filepath.Dir exePath; "php-runner.yaml"]]
  | None => []
  end.

(** ** White space at the front of a byte string *)

(** [l] starts with the encoding of a white-space rune. *)
Definition spaceFront (sp2 : ascii -> ascii -> bool)
    (sp3 : ascii -> ascii -> ascii -> bool) (l : list ascii) : bool :=
  match l with
  | [] => false
  | a :: l1 =>
      Unicode.isSpace1 a
      || match l1 with
         | [] => false
         | b :: l2 =>
             sp2 a b
             || match l2 with
                | [] => false
                | c :: _ => sp3 a b c
                end
         end
  end.

(** A string that [strings.TrimSpace] leaves as it is. *)
Definition trimmed (s : string) : Prop := Strings.TrimSpace s = s.

(** ** Labels of the probe *)

(** A string of one or more decimal digits. *)
Definition number (l : list ascii) : Prop :=
  l ≠ [] ∧ Forall (fun c => Regexp.isDigit c = true) l.

(** A label [major.minor]. *)
Definition majorMinor (s : string) : Prop :=
  ∃ major minor, bytes s = major ++ "."%char :: minor ∧ number major ∧ number minor.

(** [l] does not go on with a digit. *)
Definition noDigitAhead (l : list ascii) : Prop :=
  match l with
  | c :: _ => Regexp.isDigit c = false
  | [] => True
  end.

(** * Properties *)

Arguments Filepath.Join : simpl never.
Arguments Filepath.Dir : simpl never.
Arguments Filepath.Clean : simpl never.
Arguments Filepath.depth : simpl never.
Arguments Strings.TrimSpace : simpl never.
Arguments Strings.SplitN2 : simpl never.
Arguments Strings.HasPrefix : simpl never.

(** ** The library models on the inputs of the Go documentation *)

Example TrimSpace_marker :
  Strings.TrimSpace ("  8.2 " +:+ newline) = "8.2".
Proof. reflexivity. Qed.

Example TrimSpace_no_break_space :
  Strings.TrimSpace (str ["194"; "160"; "7"; "."; "4"; "226"; "128"; "137"]%char) = "7.4".
Proof. reflexivity. Qed.

Example Clean_samples :
  Filepath.Clean <$> [""; "//"; "a/../b"; "/../a"; "/a/b/../c/./"; "../a/../.."]
  = ["."; "/"; "b"; "/a"; "/a/c"; "../.."].
Proof. reflexivity. Qed.

Example Dir_samples :
  Filepath.Dir <$> [""; "/"; "a"; "."; "/a"; "/a/b/c"; "a/b/"; "../.."]
  = ["."; "/"; "."; "."; "/"; "/a/b"; "a/b"; ".."].
Proof. reflexivity. Qed.

Example Join_samples :
  Filepath.Join <$> [["/a/b"; versionFile]; [""; versionFile]; ["/"; versionFile]]
  = ["/a/b/.php-version"; ".php-version"; "/.php-version"].
Proof. reflexivity. Qed.

Example Scan_samples :
  Bufio.Scan <$> [""; "a" +:+ newline +:+ "b"; "a" +:+ str ["013"; "010"; "010"]%char]
  = [([], false); (["a"; "b"], false); (["a"; ""], false)].
Proof. reflexivity. Qed.

Example findGroup_samples :
  (fun out => str <$> Regexp.findGroup (bytes out))
    <$> ["PHP 8.2.0 (cli) (built: Dec  6 2022)"; "PHP 8.x, then PHP 10.12-dev"; "php 8.2"]
  = [Some "8.2"; Some "10.12"; None].
Proof. reflexivity. Qed.

Example ExitStatus_samples :
  Syscall.ExitStatus <$> [0; 768; 9]%Z = [0; 3; -1]%Z.
Proof. reflexivity. Qed.

Example Stat_samples :
  let fs : FileSys := {[ "/etc/passwd" := File "root" ]} in
  valueOf (OS.Stat "/etc/passwd" fs) = None
  ∧ valueOf (OS.Stat "/etc/shadow" fs) = Some ErrNotExist
  ∧ valueOf (OS.Stat "/etc/passwd/php" fs) = Some ErrNotDir
  ∧ valueOf (OS.Stat ("/bin/" +:+ str (replicate 300 "a"%char)) fs)
    = Some ErrNameTooLong
  ∧ valueOf (OS.Stat ("/bin/" +:+ str (replicate 255 "a"%char)) fs)
    = Some ErrNotExist.
Proof. vm_compute. done. Qed.

(** ** Bytes and strings *)

Lemma bytes_str l : bytes (str l) = l.
Proof. apply String.list_ascii_of_string_of_list_ascii. Qed.

Lemma str_bytes s : str (bytes s) = s.
Proof. apply String.string_of_list_ascii_of_string. Qed.

Lemma bytes_app s t : bytes (s +:+ t) = bytes s ++ bytes t.
Proof. induction s as [|a s IH]; simpl; [done|]. unfold bytes in *; simpl. by rewrite IH. Qed.

Lemma bytes_length s : length (bytes s) = String.length s.
Proof. induction s as [|a s IH]; simpl; [done|]. unfold bytes in *; simpl. by rewrite IH. Qed.

Lemma str_length l : String.length (str l) = length l.
Proof. by rewrite <- bytes_length, bytes_str. Qed.

Lemma bytes_inj s t : bytes s = bytes t -> s = t.
Proof. intros H. by rewrite <- (str_bytes s), <- (str_bytes t), H. Qed.

Lemma str_inj l k : str l = str k -> l = k.
Proof. intros H. by rewrite <- (bytes_str l), <- (bytes_str k), H. Qed.

Lemma str_eq_iff l s : str l = s <-> l = bytes s.
Proof.
  split; intros H; subst.
  - by rewrite bytes_str.
  - by rewrite str_bytes.
Qed.

(** ** [filepath.Dir] reaches its fixed point *)

Lemma weight_app es fs : weight (es ++ fs) = weight es + weight fs.
Proof. induction es as [|e es IH]; simpl; lia. Qed.

Lemma weight_reverse es : weight (reverse es) = weight es.
Proof.
  induction es as [|e es IH]; [done|].
  rewrite reverse_cons, weight_app, IH. simpl. lia.
Qed.

Lemma weightNonEmpty_le es : weightNonEmpty es <= weight es.
Proof. induction es as [|[|a e] es IH]; simpl in *; lia. Qed.

Lemma weightNonEmpty_app es fs :
  weightNonEmpty (es ++ fs) = weightNonEmpty es + weightNonEmpty fs.
Proof. induction es as [|[|a e] es IH]; simpl in *; lia. Qed.

Lemma split_nonempty sep l : Strings.split sep l ≠ [].
Proof. destruct l as [|a l]; simpl; [done|]. case_decide; [done|]. by destruct (Strings.split sep l). Qed.

Lemma split_weight sep l : weight (Strings.split sep l) = S (length l).
Proof.
  induction l as [|a l IH]; simpl; [done|].
  case_decide; simpl; [lia|].
  destruct (Strings.split sep l) as [|e es] eqn:E; simpl in *; lia.
Qed.

Lemma split_snoc sep l :
  Strings.split sep (l ++ [sep]) = Strings.split sep l ++ [[]].
Proof.
  induction l as [|a l IH]; simpl.
  - by rewrite decide_True.
  - case_decide; [by rewrite IH|].
    rewrite IH. destruct (Strings.split sep l) as [|e es] eqn:E; [|done].
    by destruct (split_nonempty sep l).
Qed.

Lemma cleanElems_weight rooted es out :
  weight (Filepath.cleanElems rooted es out) <= weightNonEmpty es + weight out.
Proof.
  revert out. induction es as [|e es IH]; intros out; [simpl; lia|].
  assert (weightNonEmpty (e :: es)
          = (if decide (e = []) then 0 else S (length e)) + weightNonEmpty es) as Hw.
  { destruct e; [done|]. reflexivity. }
  rewrite Hw. clear Hw. cbn [Filepath.cleanElems].
  case_decide as He; [apply IH|].
  case_decide; [etrans; [apply IH|lia]|].
  case_decide.
  - destruct out as [|top rest].
    + destruct rooted; (etrans; [apply IH|simpl; lia]).
    + case_decide; (etrans; [apply IH|simpl; lia]).
  - etrans; [apply IH|simpl; lia].
Qed.

Lemma joinElems_length es : es ≠ [] -> S (length (Filepath.joinElems es)) = weight es.
Proof.
  induction es as [|e es IH]; [done|]. intros _.
  destruct es as [|e' es]; [simpl; lia|].
  specialize (IH ltac:(done)).
  change (Filepath.joinElems (e :: e' :: es))
    with (e ++ Filepath.Separator :: Filepath.joinElems (e' :: es)).
  rewrite length_app. cbn [length].
  change (weight (e :: e' :: es)) with (S (length e) + weight (e' :: es)).
  rewrite <- IH. lia.
Qed.

(** Cleaning a path that ends with a separator gives the root or a
    shorter path. *)
Lemma cleanBytes_trailing x :
  let p := x ++ [Filepath.Separator] in
  Filepath.cleanBytes p = [Filepath.Separator]
  ∨ length (Filepath.cleanBytes p) < length p.
Proof.
  intros p. unfold Filepath.cleanBytes.
  destruct p as [|a p'] eqn:Ep; [by destruct x|]. rewrite <- Ep.
  set (out := reverse (Filepath.cleanElems _ _ [])).
  assert (Hp : length p = S (length x)) by (unfold p; rewrite length_app; simpl; lia).
  assert (Hout : ∀ n, weightNonEmpty (Strings.split Filepath.Separator p) <= n ->
                      weight out <= n).
  { intros n Hn. unfold out. rewrite weight_reverse.
    etrans; [apply cleanElems_weight|]. simpl. lia. }
  destruct (Filepath.isRooted p) eqn:Hr.
  - (* rooted: the first and the last element are empty *)
    destruct out as [|e out'] eqn:Eout; [by left|]. right.
    rewrite <- Eout in *.
    assert (weight out <= length x) as Hle.
    { apply Hout. unfold p in *. destruct x as [|b y]; simpl in Hr.
      - vm_compute. lia.
      - apply bool_decide_eq_true in Hr. subst b. simpl.
        rewrite split_snoc, weightNonEmpty_app. simpl.
        pose proof (weightNonEmpty_le (Strings.split Filepath.Separator y)).
        rewrite split_weight in *. lia. }
    simpl length. rewrite joinElems_length by (rewrite Eout; done). lia.
  - (* not rooted: the last element is empty, and [x] is not *)
    assert (weight out <= S (length x)) as Hle.
    { apply Hout. unfold p. rewrite split_snoc, weightNonEmpty_app. simpl.
      pose proof (weightNonEmpty_le (Strings.split Filepath.Separator x)).
      rewrite split_weight in *. lia. }
    assert (1 <= length x) as Hx.
    { destruct x as [|b y]; simpl; [|lia]. unfold p in Hr. by simpl in Hr. }
    right. destruct out as [|e out'] eqn:Eout; [simpl; lia|].
    rewrite <- Eout in *.
    pose proof (joinElems_length out) as Hj. rewrite Eout in Hj at 1.
    specialize (Hj ltac:(done)). lia.
Qed.

Lemma dirPrefix_length l : length (Filepath.dirPrefix l) <= length l.
Proof.
  induction l as [|a l IH]; simpl; [done|].
  case_decide; simpl; [lia|].
  destruct (Filepath.dirPrefix l); simpl in *; lia.
Qed.

Lemma dirPrefix_trailing l :
  Filepath.dirPrefix l = [] ∨ ∃ x, Filepath.dirPrefix l = x ++ [Filepath.Separator].
Proof.
  induction l as [|a l IH]; simpl; [by left|].
  case_decide as Ha.
  - right. destruct IH as [->|[x ->]].
    + exists []. by rewrite Ha.
    + by exists (a :: x).
  - destruct IH as [->|[x Hx]]; [by left|]. right.
    rewrite Hx. destruct (x ++ [Filepath.Separator]) eqn:E.
    + by destruct x.
    + rewrite <- E. by exists (a :: x).
Qed.

Lemma dirPrefix_singleton a :
  Filepath.dirPrefix [a] ≠ [] -> a = Filepath.Separator.
Proof. simpl. by case_decide. Qed.

(** One step of [Dir] that moves decreases [depth]. *)
Lemma Dir_depth d :
  Filepath.Dir d ≠ d -> Filepath.depth (Filepath.Dir d) < Filepath.depth d.
Proof.
  intros Hne. unfold Filepath.Dir in *.
  destruct (dirPrefix_trailing (bytes d)) as [E|[x E]]; rewrite E in *.
  - (* no separator *)
    change (str (Filepath.cleanBytes [])) with "." in *.
    unfold Filepath.depth. rewrite decide_True by done.
    rewrite decide_False by done. lia.
  - assert (d ≠ ".") as Hdot.
    { intros ->. by destruct x as [|? [|? ?]]. }
    unfold Filepath.depth at 2. rewrite decide_False by done.
    pose proof (dirPrefix_length (bytes d)) as Hlen.
    rewrite E, length_app, bytes_length in Hlen. simpl in Hlen.
    destruct (cleanBytes_trailing x) as [Hc|Hc]; simpl in Hc.
    + rewrite Hc in *. change (str [Filepath.Separator]) with "/" in *.
      unfold Filepath.depth. rewrite decide_False by done. simpl.
      destruct (bytes d) as [|a [|b l]] eqn:Ed.
      * by destruct x.
      * exfalso. apply Hne. apply bytes_inj. rewrite Ed.
        rewrite (dirPrefix_singleton a); [done|]. rewrite E. by destruct x.
      * rewrite <- bytes_length, Ed. simpl. lia.
    + unfold Filepath.depth. case_decide; [lia|].
      rewrite str_length. rewrite length_app in Hc. simpl in Hc. lia.
Qed.


(** ** The marker locator *)

Lemma readFile_markerLabel fs dir :
  match valueOf (OS.ReadFile (Filepath.Join [dir; versionFile]) fs) with
  | Some content => Strings.TrimSpace content
  | None => ""
  end = markerLabel fs dir.
Proof.
  unfold markerLabel, OS.ReadFile, valueOf. simpl.
  by destruct (fs !! _) as [[]|].
Qed.

Lemma findLoop_chain fs fuel d :
  Filepath.depth d < fuel ->
  ∃ label visited,
    findLoop fuel d fs = (Some label, fs, readMarker <$> visited)
    ∧ firstLabel fs (chain fuel d) label visited.
Proof.
  revert d. induction fuel as [|fuel IH]; intros d Hd; [lia|].
  pose proof (readFile_markerLabel fs d) as Hm.
  cbn [findLoop chain]. unfold bind, ret, OS.ReadFile, valueOf in *. simpl in *.
  rewrite Hm. clear Hm.
  case_bool_decide as Hl.
  - exists (markerLabel fs d), [d]. split; [done|].
    eapply (FirstLabelAt fs _ [] d); [reflexivity|constructor|done].
  - case_bool_decide as Hp.
    + rewrite decide_True by done.
      exists "", [d]. split; [done|].
      apply FirstLabelNone. by constructor.
    + rewrite decide_False by done.
      destruct (IH (Filepath.Dir d)) as (label & visited & Hrun & Hfirst).
      { pose proof (Dir_depth d Hp). lia. }
      rewrite Hrun. exists label, (d :: visited). split; [done|].
      destruct Hfirst as [pre x post Hc Hpre Hx|Hall].
      * rewrite Hc. apply (FirstLabelAt fs _ (d :: pre) x post); [done| |done].
        by constructor.
      * apply FirstLabelNone. by constructor.
Qed.

(** The bound of [findPhpVersionFile] is never hit: the loop ends by
    its [return] or its [break]. *)
Lemma findLoop_fuel fs startDir :
  valueOf (findLoop (S (Filepath.depth startDir)) startDir fs) ≠ None.
Proof.
  destruct (findLoop_chain fs (S (Filepath.depth startDir)) startDir)
    as (label & visited & Hrun & _); [lia|].
  by rewrite Hrun.
Qed.

Example ancestors_sample : ancestors "/srv/app" = ["/srv/app"; "/srv"; "/"].
Proof. reflexivity. Qed.

Lemma findPhpVersionFile_ancestors fs startDir :
  ∃ label visited,
    findPhpVersionFile startDir fs = (label, fs, readMarker <$> visited)
    ∧ firstLabel fs (ancestors startDir) label visited.
Proof.
  destruct (findLoop_chain fs (S (Filepath.depth startDir)) startDir)
    as (label & visited & Hrun & Hfirst); [lia|].
  exists label, visited. split; [|done].
  unfold findPhpVersionFile, bind, ret. rewrite Hrun. simpl.
  by rewrite app_nil_r.
Qed.

(** The chain starts at the directory, climbs by [Dir] and ends at the
    directory that is its own parent. *)
Lemma chain_climbs fuel d :
  Filepath.depth d < fuel ->
  head (chain fuel d) = Some d
  ∧ (∀ i x y, chain fuel d !! i = Some x -> chain fuel d !! S i = Some y ->
              y = Filepath.Dir x ∧ y ≠ x)
  ∧ ∃ root, last (chain fuel d) = Some root ∧ Filepath.Dir root = root.
Proof.
  revert d. induction fuel as [|fuel IH]; intros d Hd; [lia|].
  cbn [chain]. split; [done|].
  case_decide as Hp.
  - split; [|by exists d]. intros i x y Hx Hy. by destruct i.
  - destruct (IH (Filepath.Dir d)) as (Hh & Hstep & root & Hlast & Hroot).
    { pose proof (Dir_depth d Hp). lia. }
    split.
    + intros [|i] x y Hx Hy; simpl in *.
      * injection Hx as <-. destruct (chain fuel (Filepath.Dir d)); simpl in *; [done|].
        injection Hh as ->. by injection Hy as <-.
      * by apply (Hstep i).
    + exists root. split; [|done].
      destruct (chain fuel (Filepath.Dir d)); [done|]. by rewrite last_cons, Hlast.
Qed.

Lemma dirPrefix_rooted l :
  Filepath.isRooted l = true ->
  ∃ x, Filepath.dirPrefix l = Filepath.Separator :: x.
Proof.
  destruct l as [|a l]; simpl; [done|]. intros Ha%bool_decide_eq_true.
  subst a. rewrite decide_True by done. eauto.
Qed.

Lemma cleanBytes_rooted x :
  ∃ y, Filepath.cleanBytes (Filepath.Separator :: x) = Filepath.Separator :: y.
Proof. unfold Filepath.cleanBytes. cbn [Filepath.isRooted]. rewrite bool_decide_eq_true_2 by done. eauto. Qed.

Lemma Dir_rooted d :
  Filepath.isRooted (bytes d) = true ->
  Filepath.isRooted (bytes (Filepath.Dir d)) = true.
Proof.
  intros [x Hx]%dirPrefix_rooted. unfold Filepath.Dir. rewrite Hx, bytes_str.
  by destruct (cleanBytes_rooted x) as [y ->].
Qed.

Lemma Dir_fixed_rooted d :
  Filepath.isRooted (bytes d) = true -> Filepath.Dir d = d -> d = "/".
Proof.
  intros Hr Hd. destruct (dirPrefix_rooted _ Hr) as [y Hy].
  destruct (dirPrefix_trailing (bytes d)) as [E|[x E]]; [by rewrite E in Hy|].
  unfold Filepath.Dir in Hd. rewrite E in Hd.
  destruct (cleanBytes_trailing x) as [Hc|Hc]; simpl in Hc.
  - by rewrite Hc in Hd.
  - pose proof (dirPrefix_length (bytes d)) as Hlen.
    rewrite E, bytes_length in Hlen. rewrite <- Hd, str_length in Hlen. lia.
Qed.

Lemma chain_rooted fuel d :
  Filepath.depth d < fuel ->
  Filepath.isRooted (bytes d) = true ->
  last (chain fuel d) = Some "/".
Proof.
  revert d. induction fuel as [|fuel IH]; intros d Hd Hr; [lia|].
  cbn [chain]. case_decide as Hp.
  - simpl. f_equal. by apply Dir_fixed_rooted.
  - pose proof (Dir_depth d Hp).
    specialize (IH (Filepath.Dir d) ltac:(lia) (Dir_rooted d Hr)).
    destruct (chain fuel (Filepath.Dir d)); [done|]. by rewrite last_cons, IH.
Qed.

(** ** The resolver *)

Lemma getCurrentPhpVersion_run env fs :
  getCurrentPhpVersion env fs = (probed env, fs, [probeEvent]).
Proof.
  unfold getCurrentPhpVersion, probed, bind, Exec.Output, ret. simpl.
  destruct (phpOutput env) as [out|]; [|done].
  by destruct (Regexp.findGroup (bytes out)).
Qed.

Lemma createPhpVersionFile_run dir v fs :
  createPhpVersionFile dir v fs =
    match fs !! markerPath dir with
    | Some Directory =>
        (tt, fs, [EvWriteFile (markerPath dir) (v +:+ newline);
                  EvPrint (MsgWarnCouldNotCreate (markerPath dir))])
    | _ =>
        (tt, <[markerPath dir := File (v +:+ newline)]> fs,
         [EvWriteFile (markerPath dir) (v +:+ newline);
          EvPrint (MsgCreated (markerPath dir) v)])
    end.
Proof.
  unfold createPhpVersionFile, bind, OS.WriteFile, OS.Printf, markerPath.
  by destruct (fs !! _) as [[]|].
Qed.

Lemma rangeFirst_Some seed config v :
  rangeFirst seed config = Some v -> is_Some (config !! v).
Proof.
  unfold rangeFirst. intros H%list_elem_of_lookup_2.
  apply list_elem_of_fmap in H as ([k p] & -> & H).
  apply elem_of_map_to_list in H. by exists p.
Qed.

Lemma rangeFirst_None seed config :
  rangeFirst seed config = None <-> config = ∅.
Proof.
  unfold rangeFirst. split.
  - intros H. apply map_size_empty_iff.
    destruct (decide (size config = 0)) as [|Hs]; [done|].
    apply lookup_ge_None in H. rewrite length_fmap, length_map_to_list in H.
    pose proof (Nat.mod_upper_bound seed (size config) Hs). lia.
  - intros ->. by rewrite map_to_list_empty.
Qed.

Lemma usable_test config v :
  bool_decide (v ≠ "") && bool_decide (index config v ≠ "")
  = bool_decide (usable config v).
Proof.
  unfold usable. repeat case_bool_decide; simpl; tauto.
Qed.

Lemma create_then_ret {A} cwd v (x : A) fs :
  (createPhpVersionFile cwd v ;;; ret x) fs
  = (x, fsOf (createPhpVersionFile cwd v fs),
     eventsOf (createPhpVersionFile cwd v fs)).
Proof.
  unfold bind, ret, fsOf, eventsOf.
  destruct (createPhpVersionFile cwd v fs) as [[[] ?] ?]. simpl.
  by rewrite app_nil_r.
Qed.

(** The iteration may start at any key. *)
Lemma rangeFirst_any config k :
  is_Some (config !! k) -> ∃ seed, rangeFirst seed config = Some k.
Proof.
  intros [p Hk]. unfold rangeFirst.
  assert (k ∈ (map_to_list config).*1) as Hin.
  { apply list_elem_of_fmap. exists (k, p). split; [done|]. by apply elem_of_map_to_list. }
  apply list_elem_of_lookup_1 in Hin as [i Hi]. exists i.
  rewrite Nat.mod_small; [done|].
  apply lookup_lt_Some in Hi. by rewrite length_fmap, length_map_to_list in Hi.
Qed.

(** What a run of [getPhpVersion] does, by the label that the locator
    found and the label of the fallback. *)
Lemma getPhpVersion_run env cwd config fs label reads :
  findPhpVersionFile cwd fs = (label, fs, reads) ->
  getPhpVersion env cwd config fs =
    if decide (usable config label) then (Return label, fs, reads)
    else match fallback env config with
         | Some v =>
             (Return v, fsOf (createPhpVersionFile cwd v fs),
              reads ++ probeEvent :: eventsOf (createPhpVersionFile cwd v fs))
         | None =>
             (Exit 1%Z, fs, reads ++ [probeEvent; EvPrint MsgNoValidVersion])
         end.
Proof.
  intros Hfind. unfold getPhpVersion, fallback.
  unfold bind at 1. rewrite Hfind, usable_test.
  destruct (decide (usable config label));
    [rewrite bool_decide_eq_true_2 by done; simpl; f_equal; apply app_nil_r
    |rewrite bool_decide_eq_false_2 by done].
  unfold bind at 1. rewrite getCurrentPhpVersion_run, usable_test.
  destruct (decide (usable config (probed env)));
    [rewrite bool_decide_eq_true_2 by done; by rewrite create_then_ret
    |rewrite bool_decide_eq_false_2 by done].
  destruct (decide (index config defaultVersion ≠ ""));
    [rewrite bool_decide_eq_true_2 by done; by rewrite create_then_ret
    |rewrite bool_decide_eq_false_2 by done].
  destruct (rangeFirst (mapSeed env) config) as [ver|]; [|done].
  by rewrite create_then_ret.
Qed.

(** C6: from every start directory and in every file system,
    [findPhpVersionFile] returns the trimmed content of the marker file
    of the nearest directory, on the chain from the start directory to
    the directory that is its own parent, whose marker file is readable
    with a non-empty trimmed content; it reads the marker files of the
    directories up to that one and no further.  When no directory of the
    chain has such a marker it reads them all and returns the empty
    string.  The chain starts at the start directory, climbs by
    [filepath.Dir], ends where the parent equals the directory, and for
    an absolute start directory that end is the root. *)
Theorem C6_find_nearest_marker (fs : FileSys) (startDir : string) :
  ∃ label visited,
    findPhpVersionFile startDir fs = (label, fs, readMarker <$> visited)
    ∧ firstLabel fs (ancestors startDir) label visited
    ∧ head (ancestors startDir) = Some startDir
    ∧ (∀ i x y, ancestors startDir !! i = Some x ->
                ancestors startDir !! S i = Some y ->
                y = Filepath.Dir x ∧ y ≠ x)
    ∧ (∃ root, last (ancestors startDir) = Some root ∧ Filepath.Dir root = root)
    ∧ (Filepath.isRooted (bytes startDir) = true ->
       last (ancestors startDir) = Some "/").
Proof.
  destruct (findPhpVersionFile_ancestors fs startDir)
    as (label & visited & Hrun & Hfirst).
  exists label, visited. split; [done|]. split; [done|].
  unfold ancestors.
  destruct (chain_climbs (S (Filepath.depth startDir)) startDir)
    as (Hhead & Hstep & Hroot); [lia|].
  split; [done|]. split; [done|]. split; [done|].
  intros Hr. apply chain_rooted; [lia|done].
Qed.

Lemma again_read_only {A} (m : IO A) fs n :
  fsOf (m fs) = fs ->
  valueOf (again n m fs) = valueOf (m fs) ∧ fsOf (again n m fs) = fs.
Proof.
  intros Hm. induction n as [|n [IHv IHf]]; [done|].
  cbn [again]. unfold bind, valueOf, fsOf in *.
  destruct (m fs) as [[a fs1] e1] eqn:E. simpl in Hm. subst fs1.
  by destruct (again n m fs) as [[b fs2] e2].
Qed.

(** C7: [findPhpVersionFile] leaves the file system as it found it and
    emits nothing but reads of files; called again and again on the same
    file system it returns the same label. *)
Theorem C7_find_read_only (fs : FileSys) (startDir : string) :
  fsOf (findPhpVersionFile startDir fs) = fs
  ∧ Forall isRead (eventsOf (findPhpVersionFile startDir fs))
  ∧ ∀ n, valueOf (again n (findPhpVersionFile startDir) fs)
         = valueOf (findPhpVersionFile startDir fs)
         ∧ fsOf (again n (findPhpVersionFile startDir) fs) = fs.
Proof.
  destruct (findPhpVersionFile_ancestors fs startDir)
    as (label & visited & Hrun & _).
  assert (fsOf (findPhpVersionFile startDir fs) = fs) as Hfs by by rewrite Hrun.
  split; [done|]. split.
  - rewrite Hrun. unfold eventsOf. simpl. apply Forall_fmap, Forall_forall.
    intros d _. by eexists.
  - intros n. by apply again_read_only.
Qed.

(** ** [strings.TrimSpace] and the line feed that ends a marker file *)

Lemma trimFront_suffix sp2 sp3 l :
  ∃ pre, l = pre ++ Strings.trimFront sp2 sp3 l.
Proof.
  assert (∀ n l, length l <= n -> ∃ pre, l = pre ++ Strings.trimFront sp2 sp3 l) as H.
  { clear l. induction n as [|n IH]; intros l Hl.
    - destruct l; [by exists []|simpl in Hl; lia].
    - destruct l as [|a l1]; [by exists []|]. simpl in Hl. cbn [Strings.trimFront].
      destruct (Unicode.isSpace1 a).
      { destruct (IH l1) as [pre Hpre]; [lia|]. exists (a :: pre). simpl. by f_equal. }
      destruct l1 as [|b l2]; [by exists []|]. simpl in Hl.
      destruct (sp2 a b).
      { destruct (IH l2) as [pre Hpre]; [lia|]. exists (a :: b :: pre). simpl. by do 2 f_equal. }
      destruct l2 as [|c l3]; [by exists []|]. simpl in Hl.
      destruct (sp3 a b c); [|by exists []].
      destruct (IH l3) as [pre Hpre]; [lia|]. exists (a :: b :: c :: pre). simpl. by do 3 f_equal. }
  by apply (H (length l)).
Qed.

Lemma trimFront_length sp2 sp3 l :
  length (Strings.trimFront sp2 sp3 l) <= length l.
Proof.
  destruct (trimFront_suffix sp2 sp3 l) as [pre Hpre].
  rewrite Hpre at 2. rewrite length_app. lia.
Qed.

Lemma trimFront_same_length sp2 sp3 l :
  length l <= length (Strings.trimFront sp2 sp3 l) ->
  Strings.trimFront sp2 sp3 l = l.
Proof.
  intros Hlen. destruct (trimFront_suffix sp2 sp3 l) as [pre Hpre].
  assert (length l = length pre + length (Strings.trimFront sp2 sp3 l)) as H
    by (rewrite Hpre at 1; apply length_app).
  destruct pre; [by rewrite Hpre at 2|simpl in H; lia].
Qed.

Lemma trimRight_length l : length (Strings.trimRight l) <= length l.
Proof.
  unfold Strings.trimRight. rewrite length_reverse.
  etrans; [apply trimFront_length|]. by rewrite length_reverse.
Qed.

Lemma isSpace2_lineFeed a : Unicode.isSpace2 a lineFeed = false.
Proof. unfold Unicode.isSpace2. by destruct (byteIs 194 a). Qed.

Lemma isSpace3_lineFeed a b : Unicode.isSpace3 a b lineFeed = false.
Proof.
  unfold Unicode.isSpace3.
  by destruct (byteIs 225 a), (byteIs 154 b), (byteIs 226 a), (byteIs 128 b),
    (byteIs 129 b), (byteIs 227 a).
Qed.

Lemma trimRight_lineFeed l : Strings.trimRight (l ++ [lineFeed]) = Strings.trimRight l.
Proof. unfold Strings.trimRight. by rewrite reverse_snoc. Qed.

Lemma trimLeft_lineFeed l :
  l ≠ [] -> Strings.trimLeft l = l ->
  Strings.trimLeft (l ++ [lineFeed]) = l ++ [lineFeed].
Proof.
  unfold Strings.trimLeft. intros Hne Hl.
  assert (∀ k, length k < length l ->
               Strings.trimFront Unicode.isSpace2 Unicode.isSpace3 k ≠ l) as Hshort.
  { intros k Hk E. pose proof (trimFront_length Unicode.isSpace2 Unicode.isSpace3 k).
    rewrite E in *. lia. }
  destruct l as [|a l1]; [done|]. cbn [Strings.trimFront app] in *.
  destruct (Unicode.isSpace1 a); [destruct (Hshort l1); [simpl; lia|done]|].
  destruct l1 as [|b l2]; cbn [app] in *.
  { by rewrite isSpace2_lineFeed. }
  destruct (Unicode.isSpace2 a b); [destruct (Hshort l2); [simpl; lia|done]|].
  destruct l2 as [|c l3]; cbn [app] in *.
  { by rewrite isSpace3_lineFeed. }
  destruct (Unicode.isSpace3 a b c); [destruct (Hshort l3); [simpl; lia|done]|].
  done.
Qed.

(** A trimmed, non-empty label survives being written with a line feed
    and read back. *)
Lemma TrimSpace_newline L :
  L ≠ "" -> Strings.TrimSpace L = L -> Strings.TrimSpace (L +:+ newline) = L.
Proof.
  unfold Strings.TrimSpace. intros Hne HL.
  apply str_eq_iff in HL. set (l := bytes L) in *.
  assert (Strings.trimLeft l = l) as Hleft.
  { apply trimFront_same_length.
    pose proof (trimRight_length (Strings.trimLeft l)) as H.
    rewrite HL in H. done. }
  rewrite Hleft in HL.
  rewrite bytes_app. change (bytes newline) with [lineFeed]. fold l.
  rewrite trimLeft_lineFeed, trimRight_lineFeed, HL; [apply str_bytes| |done].
  intros E. apply Hne, bytes_inj. exact E.
Qed.

(** ** The resolver and the marker file *)

Lemma usable_valid config v :
  validConfig config -> usable config v <-> v ≠ "" ∧ is_Some (config !! v).
Proof.
  intros Hvalid. unfold usable, index. split; intros [Hv Hc]; (split; [done|]).
  - destruct (config !! v); [by eexists|done].
  - destruct Hc as [p Hp]. rewrite Hp. simpl. by destruct (Hvalid v p Hp).
Qed.

Lemma usable_bound config v :
  usable config v -> ∃ p, config !! v = Some p ∧ p ≠ "".
Proof.
  unfold usable, index. intros [_ Hc].
  destruct (config !! v) as [p|]; [by exists p|done].
Qed.

Lemma fallback_bound env config v :
  validConfig config -> fallback env config = Some v ->
  ∃ p, config !! v = Some p ∧ p ≠ "".
Proof.
  intros Hvalid. unfold fallback.
  destruct (decide (usable config (probed env))) as [Hu|_].
  { intros [= <-]. by apply usable_bound. }
  destruct (decide (index config defaultVersion ≠ "")) as [Hd|_].
  { intros [= <-]. unfold index in Hd.
    destruct (config !! defaultVersion) as [p|]; [by exists p|done]. }
  intros [p Hp]%rangeFirst_Some. exists p. split; [done|].
  by destruct (Hvalid v p Hp).
Qed.

Lemma createPhpVersionFile_events dir v fs :
  ∃ m, eventsOf (createPhpVersionFile dir v fs)
       = [EvWriteFile (markerPath dir) (v +:+ newline); EvPrint m]
       ∧ (m = MsgCreated (markerPath dir) v ∨ m = MsgWarnCouldNotCreate (markerPath dir)).
Proof.
  rewrite createPhpVersionFile_run.
  destruct (fs !! markerPath dir) as [[]|]; eexists; (split; [reflexivity|]); eauto.
Qed.

Lemma reads_are_reads visited : Forall isRead (readMarker <$> visited).
Proof. apply Forall_fmap, Forall_forall. intros d _. by eexists. Qed.

(** C1, as the code has it: the resolver writes nothing when the locator
    yields a label that the table binds to a non-empty path; it then
    returns that label, leaves the file system alone and only reads.
    Every write of the resolver is the write of the fallback label, with
    a line feed, into the marker file of the start directory, and there
    is one only when the locator yielded no such label and a fallback
    label was determined; a marker file that is already there is not
    spared. *)
Theorem C1_writes_only_on_fallback (env : Env) (cwd : string)
    (config : Config) (fs : FileSys) :
  let r := getPhpVersion env cwd config fs in
  let label := valueOf (findPhpVersionFile cwd fs) in
  (usable config label ->
     valueOf r = Return label ∧ fsOf r = fs ∧ Forall isRead (eventsOf r))
  ∧ (∀ path data, EvWriteFile path data ∈ eventsOf r ->
       ¬ usable config label
       ∧ path = markerPath cwd
       ∧ ∃ v, fallback env config = Some v ∧ valueOf r = Return v
              ∧ data = v +:+ newline
              ∧ fsOf r = fsOf (createPhpVersionFile cwd v fs))
  ∧ (¬ usable config label -> ∀ v, fallback env config = Some v ->
       EvWriteFile (markerPath cwd) (v +:+ newline) ∈ eventsOf r).
Proof.
  intros r label.
  destruct (findPhpVersionFile_ancestors fs cwd) as (l & visited & Hrun & _).
  assert (label = l) as -> by (unfold label; by rewrite Hrun).
  pose proof (getPhpVersion_run env cwd config fs l _ Hrun) as Hr. fold r in Hr.
  pose proof (reads_are_reads visited) as Hreads.
  destruct (decide (usable config l)) as [Hu|Hu].
  - rewrite Hr. split; [done|]. split; [|done].
    intros path data Hin. exfalso. unfold eventsOf in Hin. simpl in Hin.
    rewrite Forall_forall in Hreads. by destruct (Hreads _ Hin).
  - split; [done|].
    destruct (fallback env config) as [v|] eqn:Hfb.
    + destruct (createPhpVersionFile_events cwd v fs) as (m & Hm & _).
      set (ce := eventsOf (createPhpVersionFile cwd v fs)) in *.
      rewrite Hr. unfold eventsOf, valueOf, fsOf. simpl. rewrite Hm. split.
      * intros path data Hin. split; [done|].
        apply elem_of_app in Hin as [Hin|Hin].
        { rewrite Forall_forall in Hreads. by destruct (Hreads _ Hin). }
        apply elem_of_cons in Hin as [Hin|Hin]; [done|].
        apply elem_of_cons in Hin as [[= -> ->]|Hin].
        { split; [done|]. by exists v. }
        apply elem_of_cons in Hin as [Hin|Hin]; [done|]. by apply elem_of_nil in Hin.
      * intros _ v' [= <-]. apply elem_of_app. right. set_solver.
    + rewrite Hr. unfold eventsOf. simpl. split; [|done].
      intros path data Hin. exfalso.
      apply elem_of_app in Hin as [Hin|Hin].
      { rewrite Forall_forall in Hreads. by destruct (Hreads _ Hin). }
      apply elem_of_cons in Hin as [Hin|Hin]; [done|].
      apply elem_of_cons in Hin as [Hin|Hin]; [done|]. by apply elem_of_nil in Hin.
Qed.

(** C1 as the spec has it fails: a marker file in the start directory
    that names a version missing from the table is overwritten. *)
Lemma C1_counterexample :
  let fs : FileSys := {[ "/srv/app/.php-version" := File "9.9" ]} in
  let r := getPhpVersion exampleEnv "/srv/app" exampleConfig fs in
  valueOf r = Return "8.2"
  ∧ eventsOf r = [EvReadFile "/srv/app/.php-version";
                  EvExec "php" ["--version"];
                  EvWriteFile "/srv/app/.php-version" ("8.2" +:+ newline);
                  EvPrint (MsgCreated "/srv/app/.php-version" "8.2")]
  ∧ fsOf r !! "/srv/app/.php-version" = Some (File ("8.2" +:+ newline)).
Proof. vm_compute. done. Qed.

(** C2, as the code has it: when a label that is not empty, has no
    white space around it and is bound by the table to a non-empty path
    is written into the marker file of a directory, and the write
    succeeds, a resolution from that directory returns the label after
    one read and changes no file. *)
Theorem C2_round_trip (env : Env) (dir : string) (config : Config)
    (fs : FileSys) (L : string) :
  L ≠ "" -> Strings.TrimSpace L = L -> index config L ≠ "" ->
  fs !! markerPath dir ≠ Some Directory ->
  let fs1 := fsOf (createPhpVersionFile dir L fs) in
  getPhpVersion env dir config fs1 = (Return L, fs1, [readMarker dir]).
Proof.
  intros Hne Htrim Hbound Hfile fs1.
  assert (fs1 !! markerPath dir = Some (File (L +:+ newline))) as Hm.
  { unfold fs1. rewrite createPhpVersionFile_run.
    destruct (fs !! markerPath dir) as [[]|] eqn:E; try done;
      unfold fsOf; simpl; by rewrite lookup_insert_eq. }
  assert (findPhpVersionFile dir fs1 = (L, fs1, [readMarker dir])) as Hfind.
  { unfold findPhpVersionFile, bind at 1. cbn [findLoop].
    unfold bind at 1, OS.ReadFile. fold (markerPath dir). rewrite Hm.
    rewrite TrimSpace_newline by done.
    by rewrite bool_decide_eq_true_2 by done. }
  rewrite (getPhpVersion_run env dir config fs1 L _ Hfind).
  by rewrite decide_True by done.
Qed.

(** The round trip of the label 8.2 through [/srv/app/.php-version]. *)
Lemma C2_round_trip_witness :
  let fs1 := fsOf (createPhpVersionFile "/srv/app" "8.2" ∅) in
  getPhpVersion exampleEnv "/srv/app" exampleConfig fs1
  = (Return "8.2", fs1, [readMarker "/srv/app"]).
Proof.
  apply (C2_round_trip exampleEnv "/srv/app" exampleConfig ∅ "8.2").
  - discriminate.
  - reflexivity.
  - vm_compute. discriminate.
  - vm_compute. discriminate.
Defined.

(** C2 as the spec has it fails for a label that the table does not
    bind: the resolution returns another label and rewrites the file. *)
Lemma C2_counterexample :
  let fs1 := fsOf (createPhpVersionFile "/srv/app" "9.9" ∅) in
  let r := getPhpVersion exampleEnv "/srv/app" exampleConfig fs1 in
  fs1 !! "/srv/app/.php-version" = Some (File ("9.9" +:+ newline))
  ∧ valueOf r = Return "8.2"
  ∧ fsOf r !! "/srv/app/.php-version" = Some (File ("8.2" +:+ newline)).
Proof. vm_compute. done. Qed.

(** C3: the resolver decides in a fixed order and the first branch that
    applies wins.  With a table whose paths are not empty: (1) when the
    locator yields a label that is a key of the table, that label is
    returned and nothing but the reads of the locator happens, so the
    probe is not invoked; otherwise the probe runs after all reads, no
    read and no probe follows it, and (2) a probed label that is a key
    of the table is returned; otherwise (3) the default label is
    returned when it is a key; otherwise (4) some key of a non-empty
    table is returned; otherwise (5) the process exits with status 1. *)
Theorem C3_decision_order (env : Env) (cwd : string) (config : Config)
    (fs : FileSys) :
  validConfig config ->
  ∃ label reads,
    findPhpVersionFile cwd fs = (label, fs, reads) ∧ Forall isRead reads
    ∧ let r := getPhpVersion env cwd config fs in
      (label ≠ "" ∧ is_Some (config !! label) ->
         r = (Return label, fs, reads) ∧ probeEvent ∉ eventsOf r)
      ∧ (¬ (label ≠ "" ∧ is_Some (config !! label)) ->
         (∃ tail, eventsOf r = reads ++ probeEvent :: tail
                  ∧ Forall (fun e => ¬ isRead e ∧ ¬ isExec e) tail)
         ∧ (probed env ≠ "" ∧ is_Some (config !! probed env) ->
              valueOf r = Return (probed env))
         ∧ (¬ (probed env ≠ "" ∧ is_Some (config !! probed env)) ->
              (is_Some (config !! defaultVersion) ->
                 valueOf r = Return defaultVersion)
              ∧ (config !! defaultVersion = None -> config ≠ ∅ ->
                   ∃ ver, valueOf r = Return ver ∧ is_Some (config !! ver))
              ∧ (config = ∅ -> valueOf r = Exit 1%Z))).
Proof.
  intros Hvalid.
  destruct (findPhpVersionFile_ancestors fs cwd) as (label & visited & Hrun & _).
  exists label, (readMarker <$> visited).
  pose proof (reads_are_reads visited) as Hreads.
  split; [done|]. split; [done|]. intros r.
  pose proof (getPhpVersion_run env cwd config fs label _ Hrun) as Hr. fold r in Hr.
  rewrite <- !(usable_valid config _ Hvalid).
  destruct (decide (usable config label)) as [Hu|Hu].
  { split; [|by intros ?].
    intros _. rewrite Hr. split; [done|]. unfold eventsOf. simpl.
    intros Hin. rewrite Forall_forall in Hreads.
    by destruct (Hreads _ Hin) as [? ?]. }
  split; [by intros ?|].
  intros _. unfold fallback in Hr.
  assert (∀ v, Forall (fun e => ¬ isRead e ∧ ¬ isExec e)
                 (eventsOf (createPhpVersionFile cwd v fs))) as Hcreate.
  { intros v. destruct (createPhpVersionFile_events cwd v fs) as (m & -> & _).
    repeat (apply Forall_cons; split; [split; [intros [? [=]]|intros (? & ? & [=])]|]).
    apply Forall_nil_2. }
  destruct (decide (usable config (probed env))) as [Hp|Hp].
  { rewrite Hr. unfold eventsOf at 1, valueOf. simpl.
    split; [eauto|]. split; [done|]. by intros []. }
  assert (is_Some (config !! defaultVersion) <-> index config defaultVersion ≠ "") as Hdef.
  { unfold index. split.
    - intros [p Hq]. rewrite Hq. simpl. by destruct (Hvalid _ _ Hq).
    - destruct (config !! defaultVersion); [by eexists|done]. }
  destruct (decide (index config defaultVersion ≠ "")) as [Hd|Hd].
  { rewrite Hr. unfold eventsOf at 1, valueOf. simpl.
    split; [eauto|]. split; [done|]. intros _.
    split; [done|]. apply Hdef in Hd as [p Hq].
    split; [by rewrite Hq|]. intros ->. by rewrite lookup_empty in Hq. }
  destruct (rangeFirst (mapSeed env) config) as [ver|] eqn:Hrange.
  { rewrite Hr. unfold eventsOf at 1, valueOf. simpl.
    split; [eauto|]. split; [done|]. intros _.
    split; [by intros ?%Hdef|].
    split; [intros _ _; exists ver; split; [done|by eapply rangeFirst_Some]|].
    intros ->. by apply rangeFirst_Some in Hrange as [? ?]. }
  rewrite Hr. unfold eventsOf, valueOf. simpl.
  split.
  { eexists. split; [done|].
    repeat (apply Forall_cons; split; [split; [intros [? [=]]|intros (? & ? & [=])]|]).
    apply Forall_nil_2. }
  split; [done|]. intros _.
  split; [by intros ?%Hdef|].
  split; [|done]. intros _ Hne. by apply rangeFirst_None in Hrange.
Qed.

Lemma exampleConfig_valid : validConfig exampleConfig.
Proof. unfold exampleConfig. intros k p [<- <-]%lookup_singleton_Some. done. Qed.

(** The decision order on the example: the marker of [/srv] wins. *)
Lemma C3_decision_order_witness :
  validConfig exampleConfig
  ∧ ∃ label reads,
      findPhpVersionFile "/srv/app" exampleFs = (label, exampleFs, reads)
      ∧ (label ≠ "" ∧ is_Some (exampleConfig !! label) ->
         getPhpVersion exampleEnv "/srv/app" exampleConfig exampleFs
         = (Return label, exampleFs, reads)).
Proof.
  split; [exact exampleConfig_valid|].
  destruct (C3_decision_order exampleEnv "/srv/app" exampleConfig exampleFs
              exampleConfig_valid) as (label & reads & Hfind & _ & Hmark & _).
  exists label, reads. split; [exact Hfind|].
  intros H. exact (proj1 (Hmark H)).
Defined.

(** ** The configuration table *)

Lemma cut_Some sep l a b :
  Strings.cut sep l = Some (a, b) <-> l = a ++ sep :: b ∧ sep ∉ a.
Proof.
  revert a. induction l as [|c l IH]; intros a; simpl.
  - split; [done|]. intros [H _]. by destruct a.
  - case_decide as Hc.
    + subst c. split.
      * intros [= <- <-]. split; [done|]. apply not_elem_of_nil.
      * intros [H Hn]. destruct a as [|c a]; [by injection H as ->|].
        injection H as -> _. destruct Hn. by left.
    + destruct (Strings.cut sep l) as [[x y]|] eqn:E.
      * split.
        -- intros [= <- <-]. destruct (proj1 (IH x) eq_refl) as [-> Hn].
           split; [done|]. by apply not_elem_of_cons.
        -- intros [H Hn]. destruct a as [|c' a]; [by injection H as ->|].
           injection H as -> H. apply not_elem_of_cons in Hn as [_ Hn].
           by injection (proj2 (IH a) (conj H Hn)) as -> ->.
      * split; [done|]. intros [H Hn].
        destruct a as [|c' a]; [by injection H as ->|].
        injection H as -> H. apply not_elem_of_cons in Hn as [_ Hn].
        by pose proof (proj2 (IH a) (conj H Hn)).
Qed.

Lemma cut_None sep l : Strings.cut sep l = None <-> sep ∉ l.
Proof.
  induction l as [|c l IH]; simpl.
  - split; [intros _; apply not_elem_of_nil|done].
  - case_decide as Hc.
    + subst. split; [done|]. intros []. by left.
    + rewrite not_elem_of_cons. destruct (Strings.cut sep l) as [[x y]|].
      * split; [done|]. intros [_ H]. by apply IH in H.
      * split; [|done]. intros _. split; [done|]. by apply IH.
Qed.

Lemma classify_skipped text : classify text = LineSkipped <-> skipped text.
Proof.
  unfold classify, skipped, lineOf.
  destruct (bool_decide (Strings.TrimSpace text = "")) eqn:E1; simpl.
  { apply bool_decide_eq_true in E1. split; [by left|done]. }
  apply bool_decide_eq_false in E1.
  destruct (Strings.HasPrefix (Strings.TrimSpace text) "#") eqn:E2.
  { split; [by right|done]. }
  split; [|by intros [|]].
  repeat (case_bool_decide || simpl); done.
Qed.

Lemma classify_entry text version path :
  classify text = LineEntry version path <-> entryLine text version path.
Proof.
  unfold entryLine. rewrite <- classify_skipped.
  unfold classify, twoParts, lineOf, Strings.SplitN2.
  set (line := Strings.TrimSpace text).
  destruct (bool_decide (line = "") || Strings.HasPrefix line "#").
  { split; [done|]. by intros []. }
  destruct (Strings.cut colon (bytes line)) as [[x y]|] eqn:E; simpl.
  - apply cut_Some in E as HE. destruct HE as [Hl Hx].
    repeat case_bool_decide; simpl.
    + split; [done|]. intros (_ & a & b & Hab & Ha & -> & -> & Hv & Hp).
      assert (Strings.cut colon (bytes line) = Some (a, b)) as E'
        by by apply cut_Some.
      rewrite E in E'. by injection E' as -> ->.
    + split; [done|]. intros (_ & a & b & Hab & Ha & -> & -> & Hv & Hp).
      assert (Strings.cut colon (bytes line) = Some (a, b)) as E'
        by by apply cut_Some.
      rewrite E in E'. by injection E' as -> ->.
    + split; [done|]. intros (_ & a & b & Hab & Ha & -> & -> & Hv & Hp).
      assert (Strings.cut colon (bytes line) = Some (a, b)) as E'
        by by apply cut_Some.
      rewrite E in E'. by injection E' as -> ->.
    + split.
      * intros [= <- <-]. split; [done|]. by exists x, y.
      * intros (_ & a & b & Hab & Ha & -> & -> & Hv & Hp).
        assert (Strings.cut colon (bytes line) = Some (a, b)) as E'
          by by apply cut_Some.
        rewrite E in E'. by injection E' as -> ->.
  - split; [done|]. intros (_ & a & b & Hab & Ha & _).
    assert (Strings.cut colon (bytes line) = Some (a, b)) as E'
      by by apply cut_Some.
    by rewrite E in E'.
Qed.

Lemma classify_invalid text :
  malformed text <->
  classify text = LineInvalid (fun n => ErrInvalidFormat n (lineOf text))
  ∨ classify text = LineInvalid (fun n => ErrEmptyField n (lineOf text)).
Proof.
  unfold malformed. rewrite <- classify_skipped.
  split.
  - intros [Hs He].
    destruct (classify text) as [|v p|e] eqn:E; [done| |].
    + destruct He. exists v, p. by apply classify_entry.
    + revert E. unfold classify, lineOf.
      repeat (case_bool_decide || destruct (Strings.HasPrefix _ _) || simpl);
        intros [= <-]; eauto.
  - intros [H|H]; rewrite H; (split; [done|]); intros (v & p & Hvp).
    + assert (entryLine text v p) as He.
      { split; [|done]. rewrite <- classify_skipped. by rewrite H. }
      apply classify_entry in He. by rewrite H in He.
    + assert (entryLine text v p) as He.
      { split; [|done]. rewrite <- classify_skipped. by rewrite H. }
      apply classify_entry in He. by rewrite H in He.
Qed.

Lemma valueOf_run {A} (a : A) (fs : FileSys) (es : list event) :
  valueOf (a, fs, es) = a.
Proof. done. Qed.

Lemma fsOf_run {A} (a : A) (fs : FileSys) (es : list event) : fsOf (a, fs, es) = fs.
Proof. done. Qed.

Lemma eventsOf_run {A} (a : A) (fs : FileSys) (es : list event) :
  eventsOf (a, fs, es) = es.
Proof. done. Qed.

Lemma kept_not_missing fs path : kept fs path <-> ¬ missing fs path.
Proof.
  unfold kept, missing. split.
  - intros [H|H] [H1 H2]; done.
  - intros H. destruct (decide (pathExists fs path)); [by left|].
    right. intros He. by apply H.
Qed.

Lemma settled_kept fs path : settled fs path -> (kept fs path <-> pathExists fs path).
Proof.
  intros [H|[H1 H2]]; split; try done; [by left|by intros [?|?]].
Qed.

(** [os.Stat] and the two tests that the program makes of its error. *)
Lemma Stat_run fs path :
  ∃ err, OS.Stat path fs = (err, fs, [EvStat path])
         ∧ OS.isNil err = bool_decide (pathExists fs path)
         ∧ OS.IsNotExist err = negb (bool_decide (kept fs path)).
Proof.
  unfold OS.Stat, kept, pathExists. destruct (fs !! path) as [nd|].
  - eexists. split; [done|].
    rewrite !bool_decide_eq_true_2; [done|left; by eexists|by eexists].
  - eexists. split; [done|]. split.
    + by rewrite bool_decide_eq_false_2 by by intros [? [=]].
    + by destruct (OS.statError fs path).
Qed.

(** One turn of the loop of [loadConfig]. *)
Lemma loadLines_cons text rest n config fs :
  loadLines (text :: rest) n config fs =
    match classify text with
    | LineSkipped => loadLines rest (S n) config fs
    | LineInvalid err => (Err (err (S n)), fs, [])
    | LineEntry version path =>
        let config' := if bool_decide (kept fs path)
                       then <[version := path]> config else config in
        let '(r, fs', ev) := loadLines rest (S n) config' fs in
        (r, fs', entryEvents fs path (S n) ++ ev)
    end.
Proof.
  unfold classify, entryEvents. cbn [loadLines].
  destruct (bool_decide (Strings.TrimSpace text = "")
            || Strings.HasPrefix (Strings.TrimSpace text) "#"); [done|].
  case_bool_decide; [done|].
  destruct (bool_decide (Strings.TrimSpace (nth 0 _ "") = "")
            || bool_decide (Strings.TrimSpace (nth 1 _ "") = "")); [done|].
  unfold bind at 1.
  destruct (Stat_run fs (Strings.TrimSpace
                           (nth 1 (Strings.SplitN2 (Strings.TrimSpace text) colon) "")))
    as (err & -> & _ & ->).
  case_bool_decide; simpl; [done|].
  unfold bind, OS.Printf.
  by destruct (loadLines rest (S n) config fs) as [[r fs'] ev].
Qed.

Lemma loadLines_fs lines n config fs : fsOf (loadLines lines n config fs) = fs.
Proof.
  revert n config. induction lines as [|text rest IH]; intros n config; [done|].
  rewrite loadLines_cons. destruct (classify text) as [|v p|e]; [apply IH| |done].
  cbv zeta. specialize (IH (S n) (if bool_decide (kept fs p)
                                   then <[v := p]> config else config)).
  by destruct (loadLines rest _ _ fs) as [[r fs'] ev].
Qed.

Lemma malformed_classify text :
  malformed text <-> ∃ err, classify text = LineInvalid err.
Proof.
  rewrite classify_invalid. split; [intros [H|H]; eauto|].
  intros [err H]. revert H. unfold classify, lineOf.
  repeat (case_bool_decide || destruct (Strings.HasPrefix _ _) || simpl);
    intros [= <-]; eauto.
Qed.

(** A malformed line makes the loop fail. *)
Lemma loadLines_fails lines n config fs :
  Exists malformed lines -> ∃ e, valueOf (loadLines lines n config fs) = Err e.
Proof.
  revert n config. induction lines as [|text rest IH]; intros n config Hex.
  { by apply Exists_nil in Hex. }
  rewrite loadLines_cons.
  destruct (classify text) as [|v p|err] eqn:E.
  - apply Exists_cons in Hex as [Hm|Hex]; [|by apply IH].
    apply malformed_classify in Hm as [? Hm]. by rewrite E in Hm.
  - apply Exists_cons in Hex as [Hm|Hex].
    { apply malformed_classify in Hm as [? Hm]. by rewrite E in Hm. }
    cbv zeta.
    destruct (IH (S n) (if bool_decide (kept fs p)
                        then <[v := p]> config else config) Hex) as [e He].
    destruct (loadLines rest _ _ fs) as [[r fs'] ev]. by exists e.
  - by eexists.
Qed.

(** The failure reports the first malformed line. *)
Lemma loadLines_first_malformed lines n config fs i text :
  lines !! i = Some text -> malformed text ->
  (∀ j t, j < i -> lines !! j = Some t -> ¬ malformed t) ->
  valueOf (loadLines lines n config fs) = Err (ErrInvalidFormat (n + S i) (lineOf text))
  ∨ valueOf (loadLines lines n config fs) = Err (ErrEmptyField (n + S i) (lineOf text)).
Proof.
  revert n config i. induction lines as [|t rest IH]; intros n config i Hi Hm Hfirst.
  { done. }
  rewrite loadLines_cons. destruct i as [|i]; simpl in Hi.
  - injection Hi as ->. apply classify_invalid in Hm as [-> | ->];
      replace (n + 1) with (S n) by lia; eauto.
  - assert (¬ malformed t) as Ht by (apply (Hfirst 0); [lia|done]).
    assert (∀ j t', j < i -> rest !! j = Some t' -> ¬ malformed t') as Hrest.
    { intros j t' Hj Hl. apply (Hfirst (S j)); [lia|done]. }
    replace (n + S (S i)) with (S n + S i) by lia.
    destruct (classify t) as [|v p|err] eqn:E.
    + by apply IH.
    + cbv zeta.
      specialize (IH (S n) (if bool_decide (kept fs p)
                            then <[v := p]> config else config) i Hi Hm Hrest).
      by destruct (loadLines rest _ _ fs) as [[r fs'] ev].
    + destruct Ht. apply malformed_classify. eauto.
Qed.

Lemma entryLine_fun text v p v' p' :
  entryLine text v p -> entryLine text v' p' -> v = v' ∧ p = p'.
Proof.
  intros H1%classify_entry H2%classify_entry. rewrite H1 in H2.
  by injection H2 as -> ->.
Qed.

Lemma binds_cons fs t rest v p :
  binds fs (t :: rest) v p <->
  binds fs rest v p ∨ (entryLine t v p ∧ kept fs p ∧ noBinding fs rest v).
Proof.
  unfold binds. split.
  - intros (pre & text & post & Hl & He & Hp & Hn).
    destruct pre as [|t' pre]; simpl in Hl; injection Hl as -> ->.
    + by right.
    + left. by exists pre, text, post.
  - intros [(pre & text & post & -> & He & Hp & Hn)|(He & Hp & Hn)].
    + by exists (t :: pre), text, post.
    + by exists [], t, rest.
Qed.

Lemma noBinding_cons fs t rest v :
  noBinding fs (t :: rest) v <->
  (∀ path, entryLine t v path -> ¬ kept fs path) ∧ noBinding fs rest v.
Proof. unfold noBinding. apply Forall_cons. Qed.

(** With no malformed line the loop yields the table of the last
    entries whose paths pass its test, over the table it started from. *)
Lemma loadLines_table fs lines :
  Forall (fun t => ¬ malformed t) lines ->
  ∀ n config, ∃ config',
    valueOf (loadLines lines n config fs) = Ok config'
    ∧ ∀ v p, config' !! v = Some p <->
             binds fs lines v p ∨ (config !! v = Some p ∧ noBinding fs lines v).
Proof.
  induction lines as [|t rest IH]; intros Hall n config.
  { exists config. split; [done|]. intros v p. split.
    - intros H. right. split; [done|]. apply Forall_nil_2.
    - intros [(pre & text & post & Hl & _)|[H _]]; [by destruct pre|done]. }
  apply Forall_cons in Hall as [Ht Hall]. specialize (IH Hall).
  rewrite loadLines_cons.
  destruct (classify t) as [|v0 p0|err] eqn:E.
  - destruct (IH (S n) config) as (config' & Hrun & Htab).
    exists config'. split; [done|]. intros v p. rewrite Htab, binds_cons, noBinding_cons.
    assert (∀ v p, ¬ entryLine t v p) as Hno.
    { intros v' p' He%classify_entry. by rewrite E in He. }
    split; [|by intros [[|[? _]]|[? [_ ?]]]; auto; destruct (Hno v p)].
    intros [?|[? ?]]; [by left; left|]. right. split; [done|]. split; [|done].
    intros path He. by destruct (Hno v path).
  - cbv zeta. apply classify_entry in E.
    case_bool_decide as Hex.
    + destruct (IH (S n) (<[v0 := p0]> config)) as (config' & Hrun & Htab).
      destruct (loadLines rest _ _ fs) as [[r fs'] ev].
      exists config'. split; [done|]. intros v p.
      rewrite Htab, binds_cons, noBinding_cons. clear Htab Hrun.
      destruct (decide (v = v0)) as [->|Hv].
      * rewrite lookup_insert_eq. split.
        -- intros [?|[[= <-] ?]]; [by left; left|]. by left; right.
        -- intros [[?|(He & _ & ?)]|(_ & Hn & _)]; [by left| |].
           ++ destruct (entryLine_fun _ _ _ _ _ E He) as [_ <-]. by right.
           ++ by destruct (Hn p0 E).
      * rewrite lookup_insert_ne by done. split.
        -- intros [?|[? ?]]; [by left; left|]. right. split; [done|]. split; [|done].
           intros path He. by destruct (entryLine_fun _ _ _ _ _ E He) as [<- _].
        -- intros [[?|(He & _)]|(? & _ & ?)]; [by left| |by right].
           by destruct (entryLine_fun _ _ _ _ _ E He) as [<- _].
    + destruct (IH (S n) config) as (config' & Hrun & Htab).
      destruct (loadLines rest _ _ fs) as [[r fs'] ev].
      exists config'. split; [done|]. intros v p.
      rewrite Htab, binds_cons, noBinding_cons. clear Htab Hrun. split.
      * intros [?|[? ?]]; [by left; left|]. right. split; [done|]. split; [|done].
        intros path He. by destruct (entryLine_fun _ _ _ _ _ E He) as [_ <-].
      * intros [[?|(He & Hp & _)]|(? & _ & ?)]; [by left| |by right].
        by destruct (entryLine_fun _ _ _ _ _ E He) as [_ <-].
  - destruct Ht. apply malformed_classify. eauto.
Qed.

(** The warnings of the loop are those of the entries whose path fails
    its test, with their line numbers. *)
Lemma loadLines_warnings fs lines :
  Forall (fun t => ¬ malformed t) lines ->
  ∀ n config p k,
    EvPrint (MsgWarnExecutableNotFound p k) ∈ eventsOf (loadLines lines n config fs)
    <-> ∃ i text v, k = n + S i ∧ lines !! i = Some text
                    ∧ entryLine text v p ∧ ¬ kept fs p.
Proof.
  induction lines as [|t rest IH]; intros Hall n config p k.
  { unfold eventsOf. simpl. split; [by intros ?%elem_of_nil|by intros (? & ? & ? & _ & ? & _)]. }
  apply Forall_cons in Hall as [Ht Hall]. specialize (IH Hall).
  rewrite loadLines_cons.
  assert ((∃ i text v, k = S n + S i ∧ rest !! i = Some text
                       ∧ entryLine text v p ∧ ¬ kept fs p)
          ∨ (k = S n ∧ ∃ v, entryLine t v p ∧ ¬ kept fs p)
          <-> ∃ i text v, k = n + S i ∧ (t :: rest) !! i = Some text
                          ∧ entryLine text v p ∧ ¬ kept fs p) as Hshift.
  { split.
    - intros [(i & text & v & -> & Hi & He)|(-> & v & He)].
      + exists (S i), text, v. split; [lia|done].
      + exists 0, t, v. split; [lia|done].
    - intros ([|i] & text & v & -> & Hi & He); simpl in Hi.
      + injection Hi as ->. right. split; [lia|eauto].
      + left. exists i, text, v. split; [lia|done]. }
  rewrite <- Hshift. clear Hshift.
  destruct (classify t) as [|v0 p0|err] eqn:E.
  - rewrite IH. split; [by left|]. intros [?|(_ & v & He%classify_entry & _)]; [done|].
    by rewrite E in He.
  - cbv zeta. apply classify_entry in E.
    specialize (IH (S n) (if bool_decide (kept fs p0)
                          then <[v0 := p0]> config else config) p k).
    destruct (loadLines rest _ _ fs) as [[r fs'] ev]. unfold eventsOf in *. simpl in *.
    rewrite elem_of_app, IH. unfold entryEvents. clear IH.
    case_bool_decide as Hex; split.
    + intros [Hin|?]; [|by left].
      apply elem_of_cons in Hin as [Hin|Hin]; [done|by apply elem_of_nil in Hin].
    + intros [?|(_ & v & He & Hp)]; [by right|].
      by destruct (entryLine_fun _ _ _ _ _ E He) as [_ <-].
    + intros [Hin|?]; [|by left]. right.
      apply elem_of_cons in Hin as [Hin|Hin]; [done|].
      apply elem_of_cons in Hin as [[= -> ->]|Hin]; [eauto|by apply elem_of_nil in Hin].
    + intros [?|(-> & v & He & Hp)]; [by right|]. left.
      destruct (entryLine_fun _ _ _ _ _ E He) as [_ <-].
      apply elem_of_cons. right. by apply elem_of_cons; left.
  - destruct Ht. apply malformed_classify. eauto.
Qed.

Lemma loadLines_valid fs lines n config config' :
  validConfig config ->
  valueOf (loadLines lines n config fs) = Ok config' -> validConfig config'.
Proof.
  revert n config. induction lines as [|t rest IH]; intros n config Hvalid.
  { by intros [= <-]. }
  rewrite loadLines_cons. destruct (classify t) as [|v0 p0|err] eqn:E; [by apply IH| |done].
  cbv zeta. apply classify_entry in E as (_ & a & b & _ & _ & _ & _ & Hv & Hp).
  specialize (IH (S n) (if bool_decide (kept fs p0)
                        then <[v0 := p0]> config else config)).
  destruct (loadLines rest _ _ fs) as [[r fs'] ev]. apply IH.
  case_bool_decide; [|done].
  intros k p [[<- <-]|[_ Hk]]%lookup_insert_Some; [done|by apply (Hvalid k)].
Qed.

(** [loadConfig] by what is found at the path. *)
Lemma loadConfig_unfold fs configPath :
  loadConfig configPath fs =
    match fs !! configPath with
    | None => (Err ErrCannotOpen, fs, [EvOpen configPath])
    | Some nd =>
        let '(r, fs', ev) := loadLines (scanNode nd).1 0 ∅ fs in
        (match r with
         | Err e => Err e
         | Ok config =>
             if (scanNode nd).2 then Err ErrReading
             else if bool_decide (size config = 0) then Err ErrNoValidVersions
             else Ok config
         end, fs', EvOpen configPath :: ev)
    end.
Proof.
  unfold loadConfig, bind at 1, OS.Open.
  destruct (fs !! configPath) as [nd|]; [|done].
  destruct (scanNode nd) as [lines scanErr]. unfold bind. simpl.
  destruct (loadLines lines 0 ∅ fs) as [[[config|e] fs'] ev]; simpl;
    [|by rewrite app_nil_r].
  destruct scanErr; [unfold ret; by rewrite app_nil_r|].
  case_bool_decide; unfold ret; by rewrite app_nil_r.
Qed.

(** [loadConfig] on a regular file, by the lines that the scanner
    delivers. *)
Lemma loadConfig_run fs configPath data lines scanErr :
  fs !! configPath = Some (File data) ->
  Bufio.Scan data = (lines, scanErr) ->
  loadConfig configPath fs =
    let '(r, fs', ev) := loadLines lines 0 ∅ fs in
    (match r with
     | Err e => Err e
     | Ok config =>
         if scanErr then Err ErrReading
         else if bool_decide (size config = 0) then Err ErrNoValidVersions
         else Ok config
     end, fs', EvOpen configPath :: ev).
Proof.
  intros Hfile Hscan. rewrite loadConfig_unfold, Hfile. cbn [scanNode].
  by rewrite Hscan.
Qed.

Lemma wellformed_not_malformed lines :
  Forall (fun t => skipped t ∨ ∃ v p, twoParts t v p) lines ->
  Forall (fun t => ¬ malformed t) lines.
Proof. intros H. eapply Forall_impl; [exact H|]. intros t [Hs|Hp] [Hns Hnp]; done. Qed.

(** C4, as the code has it: when a line that the scanner delivers from
    the configuration file is neither blank nor a comment and does not
    split at its first separator into two parts that are non-empty once
    trimmed, [loadConfig] returns an error and no table; when no line
    before it is such a line, the error carries the 1-based number of
    that line and its trimmed text. *)
Theorem C4_malformed_line_fails (fs : FileSys) (configPath data : string)
    (lines : list string) (scanErr : bool) (i : nat) (text : string) :
  fs !! configPath = Some (File data) ->
  Bufio.Scan data = (lines, scanErr) ->
  lines !! i = Some text ->
  malformed text ->
  let r := loadConfig configPath fs in
  (∃ e, valueOf r = Err e)
  ∧ fsOf r = fs
  ∧ ((∀ j t, j < i -> lines !! j = Some t -> ¬ malformed t) ->
     valueOf r = Err (ErrInvalidFormat (S i) (lineOf text))
     ∨ valueOf r = Err (ErrEmptyField (S i) (lineOf text))).
Proof.
  intros Hfile Hscan Hi Hm r. unfold r.
  rewrite (loadConfig_run fs configPath data lines scanErr Hfile Hscan).
  pose proof (loadLines_fs lines 0 ∅ fs) as Hfs.
  destruct (loadLines_fails lines 0 ∅ fs) as [e He].
  { apply Exists_exists. exists text. split; [|done]. by eapply list_elem_of_lookup_2. }
  pose proof (loadLines_first_malformed lines 0 ∅ fs i text Hi Hm) as Hfirst.
  destruct (loadLines lines 0 ∅ fs) as [[r0 fs'] ev].
  unfold valueOf, fsOf in *. simpl in *. subst r0.
  split; [by exists e|]. split; [done|].
  intros Hbefore. destruct (Hfirst Hbefore) as [[= ->]|[= ->]]; eauto.
Qed.

(** A table whose second line has no separator. *)
Lemma C4_malformed_line_fails_witness :
  let data := "8.2: /bin/php82" +:+ newline +:+ "broken" +:+ newline in
  let fs : FileSys := {[ "/etc/php-runner.yaml" := File data ]} in
  valueOf (loadConfig "/etc/php-runner.yaml" fs) = Err (ErrInvalidFormat 2 "broken")
  ∨ valueOf (loadConfig "/etc/php-runner.yaml" fs) = Err (ErrEmptyField 2 "broken").
Proof.
  intros data fs.
  refine (proj2 (proj2 (C4_malformed_line_fails fs "/etc/php-runner.yaml" data
            ["8.2: /bin/php82"; "broken"] false 1 "broken" _ _ _ _)) _).
  - reflexivity.
  - reflexivity.
  - reflexivity.
  - apply classify_invalid. left. reflexivity.
  - intros [|j] t Hj Ht; [|lia]. injection Ht as <-.
    intros [? ?]%malformed_classify. discriminate.
Defined.

(** C4 as the spec has it fails for a malformed line that is not the
    first one: the error carries the number of the first. *)
Lemma C4_counterexample :
  let data := "a" +:+ newline +:+ "b" +:+ newline in
  let fs : FileSys := {[ "/etc/php-runner.yaml" := File data ]} in
  Bufio.Scan data = (["a"; "b"], false)
  ∧ malformed "b"
  ∧ valueOf (loadConfig "/etc/php-runner.yaml" fs) = Err (ErrInvalidFormat 1 "a").
Proof.
  split; [reflexivity|]. split; [|reflexivity].
  apply classify_invalid. left. reflexivity.
Qed.

Lemma yields_exists fs lines v p : yields fs lines v p -> pathExists fs p.
Proof. by intros (pre & text & post & _ & _ & Hp & _). Qed.

Lemma yields_single fs lines i text v p :
  lines !! i = Some text -> entryLine text v p ->
  (∀ j t p', j ≠ i -> lines !! j = Some t -> ¬ entryLine t v p') ->
  yields fs lines v p <-> pathExists fs p.
Proof.
  intros Hi He Hother. split; [apply yields_exists|]. intros Hp.
  exists (take i lines), text, (drop (S i) lines).
  split; [by rewrite take_drop_middle|]. split; [done|]. split; [done|].
  apply Forall_forall. intros t Ht path Het.
  apply list_elem_of_lookup_1 in Ht as [j Hj]. rewrite lookup_drop in Hj.
  destruct (Hother (S i + j) t path); [lia|done|done].
Qed.

Lemma noBinding_noEntry fs lines v :
  Forall (fun t => ∀ v p, entryLine t v p -> settled fs p) lines ->
  noBinding fs lines v <-> noEntry fs lines v.
Proof.
  intros Hset. unfold noBinding, noEntry. rewrite !Forall_forall.
  rewrite Forall_forall in Hset.
  split; intros H t Ht path He Hp; apply (H t Ht path He);
    by apply (settled_kept fs path (Hset t Ht v path He)).
Qed.

Lemma binds_yields fs lines v p :
  Forall (fun t => ∀ v p, entryLine t v p -> settled fs p) lines ->
  binds fs lines v p <-> yields fs lines v p.
Proof.
  intros Hset. unfold binds, yields.
  split; intros (pre & text & post & -> & He & Hp & Hn);
    apply Forall_app in Hset as [_ [Htext Hpost]%Forall_cons];
    exists pre, text, post; (split; [done|]); (split; [done|]); split.
  - by apply (settled_kept fs p (Htext v p He)).
  - by apply noBinding_noEntry.
  - by apply (settled_kept fs p (Htext v p He)).
  - by apply noBinding_noEntry.
Qed.

(** C5, as the code has it: when the scanner delivers the whole
    configuration file, every line is blank, a comment or a well-formed
    two-part line, and [os.Stat] settles for the path of every entry
    whether something is there, [loadConfig] changes no file and either
    returns a table, which binds a label to a path exactly when a line
    reads [label: path], its path exists and no later line for the
    label has a path that exists, or fails because no line has a path
    that exists; it never fails for another reason.  It prints one
    warning, with the line number, for each entry whose path is missing.
    For a label that a single line carries the table has that entry
    exactly when the path exists. *)
Theorem C5_wellformed_lines_load (fs : FileSys) (configPath data : string)
    (lines : list string) :
  fs !! configPath = Some (File data) ->
  Bufio.Scan data = (lines, false) ->
  Forall (fun t => skipped t ∨ ∃ v p, twoParts t v p) lines ->
  Forall (fun t => ∀ v p, entryLine t v p -> settled fs p) lines ->
  let r := loadConfig configPath fs in
  fsOf r = fs
  ∧ ((∃ config, valueOf r = Ok config ∧ config ≠ ∅
                ∧ ∀ v p, config !! v = Some p <-> yields fs lines v p)
     ∨ (valueOf r = Err ErrNoValidVersions ∧ ∀ v p, ¬ yields fs lines v p))
  ∧ (∀ p k, EvPrint (MsgWarnExecutableNotFound p k) ∈ eventsOf r
            <-> ∃ i text v, k = S i ∧ lines !! i = Some text
                            ∧ entryLine text v p ∧ ¬ pathExists fs p)
  ∧ (∀ config i text v p,
       valueOf r = Ok config -> lines !! i = Some text -> entryLine text v p ->
       (∀ j t p', j ≠ i -> lines !! j = Some t -> ¬ entryLine t v p') ->
       (config !! v = Some p <-> pathExists fs p)).
Proof.
  intros Hfile Hscan Hall%wellformed_not_malformed Hset r. unfold r.
  rewrite (loadConfig_run fs configPath data lines false Hfile Hscan).
  pose proof (loadLines_fs lines 0 ∅ fs) as Hfs.
  destruct (loadLines_table fs lines Hall 0 ∅) as (config & Hrun & Htab).
  pose proof (loadLines_warnings fs lines Hall 0 ∅) as Hwarn.
  destruct (loadLines lines 0 ∅ fs) as [[r0 fs'] ev].
  unfold valueOf, fsOf, eventsOf in *. simpl in *. subst r0.
  assert (∀ v p, config !! v = Some p <-> yields fs lines v p) as Htab'.
  { intros v p. rewrite Htab, <- (binds_yields fs lines v p Hset). split; [|by left].
    intros [?|[H _]]; [done|]. by rewrite lookup_empty in H. }
  split; [done|]. split; [|split].
  - case_bool_decide as Hsize.
    + right. split; [done|]. intros v p Hy%Htab'.
      apply map_size_empty_iff in Hsize. subst config. by rewrite lookup_empty in Hy.
    + left. exists config. split; [done|]. split; [|done].
      intros ->. by rewrite map_size_empty in Hsize.
  - intros p k.
    assert ((∃ i text v, k = S i ∧ lines !! i = Some text
                         ∧ entryLine text v p ∧ ¬ kept fs p)
            <-> ∃ i text v, k = S i ∧ lines !! i = Some text
                            ∧ entryLine text v p ∧ ¬ pathExists fs p) as Hsame.
    { rewrite Forall_forall in Hset.
      split; intros (i & text & v & Hk & Hi & He & Hp); exists i, text, v;
        repeat (split; [done|]); intros Hq; apply Hp;
        by apply (settled_kept fs p
                    (Hset text (list_elem_of_lookup_2 _ _ _ Hi) v p He)). }
    rewrite <- Hsame, <- Hwarn. split.
    + intros Hin. apply elem_of_cons in Hin as [Hin|Hin]; done.
    + intros Hin. by apply elem_of_cons; right.
  - intros config' i text v p Hok Hi He Hother.
    case_bool_decide; [done|]. injection Hok as <-.
    rewrite Htab'. by eapply yields_single.
Qed.

(** The table of the example: a comment and one entry. *)
Lemma C5_wellformed_lines_load_witness :
  fsOf (loadConfig "/etc/php-runner.yaml" exampleFs) = exampleFs.
Proof.
  refine (proj1 (C5_wellformed_lines_load exampleFs "/etc/php-runner.yaml"
                   exampleText ["# interpreters"; "8.2: /bin/php82"] _ _ _ _)).
  - reflexivity.
  - reflexivity.
  - apply Forall_cons. split.
    { left. apply classify_skipped. reflexivity. }
    apply Forall_cons. split; [|apply Forall_nil_2].
    right. exists "8.2", "/bin/php82".
    assert (entryLine "8.2: /bin/php82" "8.2" "/bin/php82") as [_ H]; [|exact H].
    apply classify_entry. reflexivity.
  - apply Forall_cons. split.
    { intros v p He%classify_entry. discriminate. }
    apply Forall_cons. split; [|apply Forall_nil_2].
    intros v p He%classify_entry. injection He as <- <-. left. by eexists.
Defined.

(** C5 as the spec has it fails when a label occurs on several lines:
    a line whose path exists yields no entry of its own, and the label
    of a line whose path is missing is bound all the same. *)
Lemma C5_counterexample :
  let data := "8.2: /missing" +:+ newline +:+ "8.2: /a" +:+ newline
              +:+ "8.2: /b" +:+ newline in
  let fs : FileSys := <["/etc/php-runner.yaml" := File data]>
                        (<["/a" := File "ELF"]> (<["/b" := File "ELF"]> ∅)) in
  Bufio.Scan data = (["8.2: /missing"; "8.2: /a"; "8.2: /b"], false)
  ∧ entryLine "8.2: /missing" "8.2" "/missing"
  ∧ entryLine "8.2: /a" "8.2" "/a"
  ∧ entryLine "8.2: /b" "8.2" "/b"
  ∧ ¬ pathExists fs "/missing"
  ∧ pathExists fs "/a"
  ∧ ∃ config, valueOf (loadConfig "/etc/php-runner.yaml" fs) = Ok config
              ∧ config !! "8.2" = Some "/b".
Proof.
  split; [reflexivity|].
  repeat (split; [by apply classify_entry|]).
  split; [by intros [? [=]]|]. split; [by eexists|].
  eexists. split; [vm_compute; reflexivity|]. reflexivity.
Qed.

(** ** Discovery of the configuration file *)

Lemma firstExisting_run fs paths :
  ∃ hit probed,
    firstExisting paths fs = (hit, fs, EvStat <$> probed)
    ∧ firstPath fs paths hit probed.
Proof.
  induction paths as [|p rest (hit & probed & Hrun & Hfirst)].
  { exists None, []. split; [done|]. apply FirstPathNone, Forall_nil_2. }
  cbn [firstExisting]. unfold bind.
  destruct (Stat_run fs p) as (err & -> & -> & _).
  case_bool_decide as Hp; simpl.
  - exists (Some p), [p]. split; [done|].
    eapply (FirstPathAt fs _ [] p); [reflexivity|apply Forall_nil_2|done].
  - rewrite Hrun. exists hit, (p :: probed). split; [done|].
    destruct Hfirst as [pre q post Hl Hpre Hq|Hall].
    + rewrite Hl. eapply (FirstPathAt fs _ (p :: pre) q post); [done| |done].
      by apply Forall_cons.
    + apply FirstPathNone. by apply Forall_cons.
Qed.

Lemma searchPaths_order env :
  searchPaths env = userPaths env ++ systemPaths env ++ executablePaths env.
Proof.
  assert (∀ name file,
            envPath env name file = inDirectory (Getenv env name) file) as Henv.
  { intros name file. unfold envPath, inDirectory.
    case_bool_decide; by destruct (decide (Getenv env name = "")). }
  unfold searchPaths, userPaths, systemPaths, executablePaths.
  rewrite !Henv. destruct (GOOS_windows env); by rewrite <- ?app_assoc.
Qed.

Lemma findConfigFile_run env fs :
  ∃ hit probed,
    firstPath fs (searchPaths env) hit probed
    ∧ findConfigFile env fs
      = (match hit with
         | Some path => (path, None)
         | None =>
             match searchPaths env with
             | first :: _ =>
                 (first, Some (ErrConfigNotFound
                                 (Strings.Join (searchPaths env) newline)))
             | [] => ("", Some ErrNoLocations)
             end
         end, fs, EvStat <$> probed).
Proof.
  destruct (firstExisting_run fs (searchPaths env)) as (hit & probed & Hrun & Hfirst).
  exists hit, probed. split; [done|].
  unfold findConfigFile, bind. rewrite Hrun.
  destruct hit as [path|]; simpl; [by rewrite app_nil_r|].
  destruct (searchPaths env); simpl; by rewrite app_nil_r.
Qed.

(** C8: [findConfigFile] probes, in this order, the locations in the
    directories of the user ([.php-runner.yaml] in the home directory;
    on Windows [php-runner.yaml] in the profile directory, then in the
    directory of the application data; each only when its variable is
    set), the locations shared by all users ([/etc/php-runner.yaml],
    then [/usr/local/php-runner.yaml]; on Windows [php-runner.yaml] in
    the directory of the program data) and the location beside the
    running executable; it stops at the first path at which something
    exists and returns it, leaving the later paths alone.  When nothing
    exists at any of them it returns an error: the error lists all the
    probed paths, one per line, or, when there was no path to probe, says
    that no location could be determined. *)
Theorem C8_config_discovery (env : Env) (fs : FileSys) :
  searchPaths env = userPaths env ++ systemPaths env ++ executablePaths env
  ∧ searchPaths env
    = (if GOOS_windows env then
         inDirectory (Getenv env "USERPROFILE") "php-runner.yaml"
         ++ inDirectory (Getenv env "APPDATA") "php-runner.yaml"
         ++ inDirectory (Getenv env "PROGRAMDATA") "php-runner.yaml"
       else
         inDirectory (Getenv env "HOME") ".php-runner.yaml"
         ++ ["/etc/php-runner.yaml"; "/usr/local/php-runner.yaml"])
      ++ match Executable env with
         | Some exePath => [Filepath.Join [Filepath.Dir exePath; "php-runner.yaml"]]
         | None => []
         end
  ∧ ∃ hit probed,
      firstPath fs (searchPaths env) hit probed
      ∧ fsOf (findConfigFile env fs) = fs
      ∧ eventsOf (findConfigFile env fs) = EvStat <$> probed
      ∧ match hit with
        | Some path => valueOf (findConfigFile env fs) = (path, None)
        | None =>
            match searchPaths env with
            | first :: _ =>
                valueOf (findConfigFile env fs)
                = (first, Some (ErrConfigNotFound
                                  (Strings.Join (searchPaths env) newline)))
            | [] => valueOf (findConfigFile env fs) = ("", Some ErrNoLocations)
            end
        end.
Proof.
  split; [apply searchPaths_order|].
  split.
  { rewrite searchPaths_order. unfold userPaths, systemPaths, executablePaths.
    destruct (GOOS_windows env); by rewrite <- ?app_assoc. }
  destruct (findConfigFile_run env fs) as (hit & probed & Hfirst & Hrun).
  exists hit, probed. split; [done|]. rewrite Hrun.
  split; [done|]. split; [done|].
  destruct hit as [path|]; [done|]. by destruct (searchPaths env).
Qed.

(** ** The launcher *)

Ltac quiet_events :=
  repeat (apply Forall_cons; split; [split; [intros (? & ? & [=])|intros ? [=]]|]);
  try apply Forall_nil_2.

Ltac harmless_events :=
  repeat (apply Forall_cons; split;
          [split; [intros (? & ? & [=])|intros ? [=]; subst; by intros []]|]);
  try apply Forall_nil_2.

Lemma harmless_quiet e : harmless e -> quiet e.
Proof. intros [Hr Hm]. split; [done|]. intros v ->. by apply (Hm _ eq_refl). Qed.

Lemma Forall_harmless_quiet es : Forall harmless es -> Forall quiet es.
Proof. intros H. eapply Forall_impl; [exact H|]. apply harmless_quiet. Qed.

Lemma findConfigFile_harmless env fs :
  fsOf (findConfigFile env fs) = fs
  ∧ Forall harmless (eventsOf (findConfigFile env fs)).
Proof.
  destruct (findConfigFile_run env fs) as (hit & probed & _ & ->).
  split; [done|]. apply Forall_fmap, Forall_forall. intros p _.
  split; [intros (? & ? & [=])|intros ? [=]].
Qed.

Lemma loadLines_harmless fs lines n config :
  Forall harmless (eventsOf (loadLines lines n config fs)).
Proof.
  revert n config. induction lines as [|t rest IH]; intros n config.
  { apply Forall_nil_2. }
  rewrite loadLines_cons.
  destruct (classify t) as [|v0 p0|err]; [apply IH| |apply Forall_nil_2].
  cbv zeta.
  specialize (IH (S n) (if bool_decide (kept fs p0)
                        then <[v0 := p0]> config else config)).
  destruct (loadLines rest _ _ fs) as [[r fs'] ev]. unfold eventsOf in *. simpl in *.
  apply Forall_app. split; [|done]. unfold entryEvents.
  case_bool_decide; harmless_events.
Qed.

Lemma loadConfig_harmless configPath fs :
  fsOf (loadConfig configPath fs) = fs
  ∧ Forall harmless (eventsOf (loadConfig configPath fs)).
Proof.
  rewrite loadConfig_unfold.
  destruct (fs !! configPath) as [nd|];
    [|split; [done|]; unfold eventsOf; simpl; harmless_events].
  pose proof (loadLines_fs (scanNode nd).1 0 ∅ fs) as Hfs.
  pose proof (loadLines_harmless fs (scanNode nd).1 0 ∅) as Hq.
  destruct (loadLines (scanNode nd).1 0 ∅ fs) as [[r fs'] ev].
  unfold fsOf, eventsOf in *. simpl in *. split; [done|].
  apply Forall_cons. split; [|done].
  split; [intros (? & ? & [=])|intros ? [=]].
Qed.

Lemma loadConfig_valid configPath fs config :
  valueOf (loadConfig configPath fs) = Ok config -> validConfig config ∧ config ≠ ∅.
Proof.
  rewrite loadConfig_unfold.
  destruct (fs !! configPath) as [nd|]; [|done].
  pose proof (loadLines_valid fs (scanNode nd).1 0 ∅) as Hvalid.
  destruct (loadLines (scanNode nd).1 0 ∅ fs) as [[[config'|e] fs'] ev];
    unfold valueOf in *; simpl in *; [|done].
  destruct (scanNode nd).2; [done|]. case_bool_decide as Hsize; [done|].
  intros [= <-]. split.
  - apply (Hvalid config'); [|done]. intros k p Hk. by rewrite lookup_empty in Hk.
  - intros ->. by rewrite map_size_empty in Hsize.
Qed.

(** The events of the resolver: harmless when it returns, and without
    a child or a report of a missing version when it exits. *)
Lemma getPhpVersion_events env cwd config fs :
  match valueOf (getPhpVersion env cwd config fs) with
  | Return _ => Forall harmless (eventsOf (getPhpVersion env cwd config fs))
  | Exit _ => Forall quiet (eventsOf (getPhpVersion env cwd config fs))
  end.
Proof.
  destruct (findPhpVersionFile_ancestors fs cwd) as (label & visited & Hrun & _).
  rewrite (getPhpVersion_run env cwd config fs label _ Hrun).
  assert (Forall harmless (readMarker <$> visited)) as Hreads.
  { apply Forall_fmap, Forall_forall. intros d _.
    split; [intros (? & ? & [=])|intros ? [=]]. }
  destruct (decide (usable config label)); [done|].
  destruct (fallback env config) as [v|]; unfold eventsOf at 1, valueOf; simpl.
  - destruct (createPhpVersionFile_events cwd v fs) as (m & -> & [-> | ->]);
      apply Forall_app; (split; [done|]); harmless_events.
  - apply Forall_app. split; [by apply Forall_harmless_quiet|]. quiet_events.
Qed.

(** A label that the resolver returns is bound to a non-empty path. *)
Lemma getPhpVersion_bound env cwd config fs v :
  validConfig config ->
  valueOf (getPhpVersion env cwd config fs) = Return v ->
  ∃ p, config !! v = Some p ∧ p ≠ "".
Proof.
  intros Hvalid.
  destruct (findPhpVersionFile_ancestors fs cwd) as (label & visited & Hrun & _).
  rewrite (getPhpVersion_run env cwd config fs label _ Hrun).
  destruct (decide (usable config label)) as [Hu|_].
  { intros [= <-]. by apply usable_bound. }
  destruct (fallback env config) as [w|] eqn:Hfb; [|done].
  intros [= <-]. by eapply fallback_bound.
Qed.

Lemma getPhpVersion_exit env cwd config fs code :
  valueOf (getPhpVersion env cwd config fs) = Exit code -> code = 1%Z.
Proof.
  destruct (findPhpVersionFile_ancestors fs cwd) as (label & visited & Hrun & _).
  rewrite (getPhpVersion_run env cwd config fs label _ Hrun).
  destruct (decide (usable config label)); [done|].
  destruct (fallback env config); [done|]. by intros [= <-].
Qed.

(** The two ways in which [main] ends: with status 1 before any child
    was started, or after starting the child once, with nothing fatal
    printed before. *)
Lemma main_cases env fs :
  (valueOf (main env fs) = 1%Z ∧ Forall quiet (eventsOf (main env fs)))
  ∨ ∃ pre phpPath,
      Forall harmless pre
      ∧ match runChild env phpPath (Args env) with
        | StartError =>
            valueOf (main env fs) = 1%Z
            ∧ eventsOf (main env fs)
              = pre ++ [EvRun phpPath (Args env); EvPrint MsgErrorExecuting]
        | Finished status =>
            valueOf (main env fs) = Syscall.ExitStatus status
            ∧ eventsOf (main env fs) = pre ++ [EvRun phpPath (Args env)]
        end.
Proof.
  enough (∀ r, r = main env fs ->
            (valueOf r = 1%Z ∧ Forall quiet (eventsOf r))
            ∨ ∃ pre phpPath,
                Forall harmless pre
                ∧ match runChild env phpPath (Args env) with
                  | StartError =>
                      valueOf r = 1%Z
                      ∧ eventsOf r
                        = pre ++ [EvRun phpPath (Args env); EvPrint MsgErrorExecuting]
                  | Finished status =>
                      valueOf r = Syscall.ExitStatus status
                      ∧ eventsOf r = pre ++ [EvRun phpPath (Args env)]
                  end) as H by exact (H _ eq_refl).
  intros r. unfold main. unfold bind at 1.
  destruct (findConfigFile_harmless env fs) as [Hfs1 Hq1].
  destruct (findConfigFile env fs) as [[[configPath err] fs1] e1].
  unfold fsOf, eventsOf in Hfs1, Hq1. simpl in Hfs1, Hq1. subst fs1.
  pose proof (Forall_harmless_quiet _ Hq1) as Hq1'.
  destruct err as [e|].
  { intros ->. left. unfold valueOf, eventsOf. simpl. split; [done|].
    apply Forall_app. split; [done|]. quiet_events. }
  unfold bind at 1.
  destruct (loadConfig_harmless configPath fs) as [Hfs2 Hq2].
  pose proof (loadConfig_valid configPath fs) as Hvalid.
  destruct (loadConfig configPath fs) as [[[config|e] fs2] e2].
  2:{ intros ->. left. unfold valueOf, eventsOf in *. simpl in *. split; [done|].
      apply Forall_app. split; [done|].
      apply Forall_app. split; [by apply Forall_harmless_quiet|]. quiet_events. }
  unfold fsOf, eventsOf, valueOf in Hfs2, Hq2, Hvalid. simpl in Hfs2, Hq2, Hvalid. subst fs2.
  pose proof (Forall_harmless_quiet _ Hq2) as Hq2'.
  destruct (Hvalid config eq_refl) as [Hv _]. clear Hvalid.
  destruct (Getwd env) as [cwd|].
  2:{ intros ->. left. unfold valueOf, eventsOf. simpl. split; [done|].
      apply Forall_app. split; [done|]. apply Forall_app. split; [done|]. quiet_events. }
  unfold bind at 1.
  pose proof (getPhpVersion_events env cwd config fs) as Hq3.
  pose proof (getPhpVersion_bound env cwd config fs) as Hbound.
  pose proof (getPhpVersion_exit env cwd config fs) as Hexit.
  destruct (getPhpVersion env cwd config fs) as [[[version|code] fs3] e3].
  2:{ intros ->. left. unfold valueOf, eventsOf in *. simpl in *.
      split; [by apply Hexit|].
      apply Forall_app. split; [done|]. apply Forall_app. split; [done|].
      by rewrite app_nil_r. }
  unfold valueOf, eventsOf in Hq3, Hbound. simpl in Hq3, Hbound.
  destruct (Hbound version Hv eq_refl) as (phpPath & Hpath & _). rewrite Hpath.
  unfold bind at 1. destruct (Stat_run fs3 phpPath) as (err & -> & _ & _).
  assert (Forall harmless (e1 ++ e2 ++ e3 ++ [EvStat phpPath])) as Hpre.
  { repeat (apply Forall_app; split; [done|]). harmless_events. }
  destruct (OS.IsNotExist err); simpl.
  1:{ intros ->. left. unfold valueOf, eventsOf. simpl. split; [done|].
      pose proof (Forall_harmless_quiet _ Hq3).
      repeat (apply Forall_app; split; [done|]). quiet_events. }
  intros ->. right. exists (e1 ++ e2 ++ e3 ++ [EvStat phpPath]), phpPath. split; [done|].
  unfold bind, Exec.Run, valueOf, eventsOf.
  destruct (runChild env phpPath (Args env)) as [|status]; simpl.
  - split; [done|]. by rewrite <- !app_assoc.
  - case_bool_decide as Hs; simpl; (split; [by rewrite ?Hs|]); by rewrite <- !app_assoc.
Qed.

(** The exit code of a child that exited normally is read back from its
    wait status. *)
Lemma ExitStatus_exitedWith code :
  (0 <= code < 256)%Z -> Syscall.ExitStatus (Syscall.exitedWith code) = code.
Proof.
  intros Hc. unfold Syscall.ExitStatus, Syscall.Exited, Syscall.exitedWith,
    Syscall.mask, Syscall.exited, Syscall.shift.
  rewrite Z.shiftr_shiftl_l, Z.sub_diag, Z.shiftl_0_r by lia.
  change 0x7F%Z with (Z.ones 7). change 0xFF%Z with (Z.ones 8).
  rewrite !Z.land_ones by lia. rewrite Z.shiftl_mul_pow2 by lia.
  replace (code * 2 ^ 8)%Z with ((code * 2) * 2 ^ 7)%Z by lia.
  rewrite Z.mod_mul by lia. simpl.
  apply Z.mod_small. lia.
Qed.

(** C9: [main] ends with status 1 whenever it starts no child, whenever
    the child cannot be started, and whenever it prints one of its
    fatal messages (configuration not found or not loaded, working
    directory unknown, no version available, version or executable
    missing, launch failed); when the child was started and waited for,
    the status of [main] is the exit status read from the wait status
    of the child, so that a child that exits with a code between 0 and
    255 gives [main] that very code. *)
Theorem C9_exit_status (env : Env) (fs : FileSys) :
  let r := main env fs in
  (Forall (fun e => ¬ isRun e) (eventsOf r) -> valueOf r = 1%Z)
  ∧ (∀ m, fatal m -> EvPrint m ∈ eventsOf r -> valueOf r = 1%Z)
  ∧ (∀ path args, EvRun path args ∈ eventsOf r ->
       args = Args env
       ∧ match runChild env path args with
         | StartError => valueOf r = 1%Z
         | Finished status => valueOf r = Syscall.ExitStatus status
         end)
  ∧ (∀ path args code, EvRun path args ∈ eventsOf r ->
       runChild env path args = Finished (Syscall.exitedWith code) ->
       (0 <= code < 256)%Z -> valueOf r = code).
Proof.
  intros r.
  assert ((Forall (fun e => ¬ isRun e) (eventsOf r) -> valueOf r = 1%Z)
          ∧ (∀ m, fatal m -> EvPrint m ∈ eventsOf r -> valueOf r = 1%Z)
          ∧ (∀ path args, EvRun path args ∈ eventsOf r ->
               args = Args env
               ∧ match runChild env path args with
                 | StartError => valueOf r = 1%Z
                 | Finished status => valueOf r = Syscall.ExitStatus status
                 end)) as (H1 & H2 & H3).
  { unfold r. destruct (main_cases env fs) as [[Hv Hq]|(pre & phpPath & Hpre & Hrun)].
    - split; [done|]. split; [done|]. intros path args Hin. exfalso.
      rewrite Forall_forall in Hq. destruct (Hq _ Hin) as [Hr _]. apply Hr. by eexists _, _.
    - rewrite Forall_forall in Hpre.
      assert (∀ path args, EvRun path args ∈ pre -> False) as Hnorun.
      { intros path args Hin. destruct (Hpre _ Hin) as [Hr _]. apply Hr. by eexists _, _. }
      destruct (runChild env phpPath (Args env)) as [|status] eqn:Hchild;
        destruct Hrun as [Hv He]; rewrite He.
      + split; [done|]. split; [done|]. intros path args Hin.
        apply elem_of_app in Hin as [Hin|Hin]; [by destruct (Hnorun _ _ Hin)|].
        apply elem_of_cons in Hin as [[= -> ->]|Hin]; [by rewrite Hchild|].
        apply elem_of_cons in Hin as [Hin|Hin]; [done|by apply elem_of_nil in Hin].
      + split; [|split].
        * intros Hall. exfalso. apply Forall_app in Hall as [_ Hall].
          apply Forall_cons in Hall as [Hr _]. apply Hr. by eexists _, _.
        * intros m Hm Hin. exfalso.
          apply elem_of_app in Hin as [Hin|Hin].
          { destruct (Hpre _ Hin) as [_ Hf]. by apply (Hf m). }
          apply elem_of_cons in Hin as [Hin|Hin]; [done|by apply elem_of_nil in Hin].
        * intros path args Hin.
          apply elem_of_app in Hin as [Hin|Hin]; [by destruct (Hnorun _ _ Hin)|].
          apply elem_of_cons in Hin as [[= -> ->]|Hin]; [by rewrite Hchild|].
          by apply elem_of_nil in Hin. }
  split; [done|]. split; [done|]. split; [done|].
  intros path args code Hin Hchild Hcode.
  destruct (H3 path args Hin) as [_ Hst]. rewrite Hchild in Hst.
  by rewrite Hst, ExitStatus_exitedWith.
Qed.

(** C10: a label that [getPhpVersion] returns for a table that
    [loadConfig] has loaded is a key of that table, bound to a
    non-empty path; and [main] never reports a version as missing from
    the configuration. *)
Theorem C10_resolved_label_is_bound (env : Env) (fs : FileSys) :
  (∀ configPath fs0 config cwd version,
     valueOf (loadConfig configPath fs0) = Ok config ->
     valueOf (getPhpVersion env cwd config fs) = Return version ->
     ∃ phpPath, config !! version = Some phpPath ∧ phpPath ≠ "")
  ∧ ∀ version, EvPrint (MsgVersionNotInConfig version) ∉ eventsOf (main env fs).
Proof.
  split.
  - intros configPath fs0 config cwd version [Hvalid _]%loadConfig_valid.
    by apply getPhpVersion_bound.
  - intros version Hin.
    destruct (main_cases env fs) as [[_ Hq]|(pre & phpPath & Hpre & Hrun)].
    + rewrite Forall_forall in Hq. destruct (Hq _ Hin) as [_ Hn]. by apply (Hn version).
    + rewrite Forall_forall in Hpre.
      assert (EvPrint (MsgVersionNotInConfig version) ∉ pre) as Hnot.
      { intros Hp. destruct (Hpre _ Hp) as [_ Hf]. by apply (Hf _ eq_refl). }
      destruct (runChild env phpPath (Args env)); destruct Hrun as [_ He];
        rewrite He in Hin; apply elem_of_app in Hin as [Hin|Hin]; try done.
      * apply elem_of_cons in Hin as [Hin|Hin]; [done|].
        apply elem_of_cons in Hin as [Hin|Hin]; [done|by apply elem_of_nil in Hin].
      * apply elem_of_cons in Hin as [Hin|Hin]; [done|by apply elem_of_nil in Hin].
Qed.

(** ** The other discovery *)

(** With a home directory, [Legacy.getConfig] looks nowhere but beside
    the executable: the test [err != nil && fileExist(configPath)] lets
    the file of the home directory in only when the home directory is
    unknown. *)
Lemma getConfig_home_known env fs exePath :
  Getenv env (if GOOS_windows env then "USERPROFILE" else "HOME") ≠ "" ->
  Executable env = Some exePath ->
  Legacy.getConfig env fs
  = let '(r, fs', ev) :=
      Legacy.loadReporting
        (Filepath.Join [Filepath.Dir exePath; Legacy.configFile]) fs in
    (Return r, fs', ev).
Proof.
  intros Hhome Hexe. unfold Legacy.getConfig, Legacy.UserHomeDir.
  rewrite bool_decide_eq_false_2 by done. unfold bind at 1, ret at 1.
  rewrite Hexe. unfold bind at 1. simpl.
  destruct (Legacy.loadReporting _ fs) as [[r fs'] ev]. unfold ret.
  by rewrite app_nil_r.
Qed.

(** * Further properties of the code *)

(** ** [strings.TrimSpace] trims once and for all *)

Lemma trimFront_fixed sp2 sp3 l :
  spaceFront sp2 sp3 l = false -> Strings.trimFront sp2 sp3 l = l.
Proof.
  destruct l as [|a [|b [|c l3]]]; cbn [spaceFront Strings.trimFront]; [done|..].
  - rewrite orb_false_r. by intros ->.
  - rewrite orb_false_r. intros H. apply orb_false_elim in H as [H1 H2].
    by rewrite H1, H2.
  - intros H. apply orb_false_elim in H as [H1 H].
    apply orb_false_elim in H as [H2 H3]. by rewrite H1, H2, H3.
Qed.

Lemma trimFront_no_front sp2 sp3 l :
  spaceFront sp2 sp3 (Strings.trimFront sp2 sp3 l) = false.
Proof.
  assert (∀ n l, length l <= n ->
                 spaceFront sp2 sp3 (Strings.trimFront sp2 sp3 l) = false) as H.
  { clear l. induction n as [|n IH]; intros l Hl.
    - destruct l; [done|simpl in Hl; lia].
    - destruct l as [|a l1]; [done|]. simpl in Hl. cbn [Strings.trimFront].
      destruct (Unicode.isSpace1 a) eqn:E1; [apply IH; lia|].
      destruct l1 as [|b l2]; [cbn [spaceFront]; by rewrite E1|]. simpl in Hl.
      destruct (sp2 a b) eqn:E2; [apply IH; lia|].
      destruct l2 as [|c l3]; [cbn [spaceFront]; by rewrite E1, E2|]. simpl in Hl.
      destruct (sp3 a b c) eqn:E3; [apply IH; lia|].
      cbn [spaceFront]. by rewrite E1, E2, E3. }
  by apply (H (length l)).
Qed.

Lemma trimFront_idem sp2 sp3 l :
  Strings.trimFront sp2 sp3 (Strings.trimFront sp2 sp3 l)
  = Strings.trimFront sp2 sp3 l.
Proof. apply trimFront_fixed, trimFront_no_front. Qed.

Lemma spaceFront_app sp2 sp3 p q :
  spaceFront sp2 sp3 p = true -> spaceFront sp2 sp3 (p ++ q) = true.
Proof.
  destruct p as [|a [|b [|c l3]]]; cbn [spaceFront app]; [done|..].
  - rewrite orb_false_r. by intros ->.
  - rewrite orb_false_r. intros H. apply orb_true_iff in H as [H|H]; rewrite H; [done|].
    destruct q; by rewrite ?orb_true_r.
  - done.
Qed.

Lemma trimRight_prefix l : ∃ suf, l = Strings.trimRight l ++ suf.
Proof.
  unfold Strings.trimRight.
  destruct (trimFront_suffix (fun b a => Unicode.isSpace2 a b)
              (fun c b a => Unicode.isSpace3 a b c) (reverse l)) as [pre Hpre].
  exists (reverse pre). rewrite <- reverse_app, <- Hpre. by rewrite reverse_involutive.
Qed.

Lemma trimRight_idem l :
  Strings.trimRight (Strings.trimRight l) = Strings.trimRight l.
Proof.
  unfold Strings.trimRight. by rewrite reverse_involutive, trimFront_idem.
Qed.

Lemma trimLeft_trimRight l :
  Strings.trimLeft l = l -> Strings.trimLeft (Strings.trimRight l) = Strings.trimRight l.
Proof.
  unfold Strings.trimLeft. intros Hl. apply trimFront_fixed.
  destruct (spaceFront _ _ (Strings.trimRight l)) eqn:E; [|done].
  destruct (trimRight_prefix l) as [suf Hsuf].
  pose proof (spaceFront_app _ _ _ suf E) as H. rewrite <- Hsuf in H.
  pose proof (trimFront_no_front Unicode.isSpace2 Unicode.isSpace3 l) as H'.
  rewrite Hl in H'. congruence.
Qed.

Lemma TrimSpace_idem s : trimmed (Strings.TrimSpace s).
Proof.
  unfold trimmed, Strings.TrimSpace. rewrite bytes_str. f_equal.
  rewrite trimLeft_trimRight by apply trimFront_idem.
  apply trimRight_idem.
Qed.

Lemma trimFront_elem sp2 sp3 l a :
  a ∈ Strings.trimFront sp2 sp3 l -> a ∈ l.
Proof.
  destruct (trimFront_suffix sp2 sp3 l) as [pre Hpre]. intros H.
  rewrite Hpre. apply elem_of_app. by right.
Qed.

Lemma TrimSpace_elem s a : a ∈ bytes (Strings.TrimSpace s) -> a ∈ bytes s.
Proof.
  unfold Strings.TrimSpace. rewrite bytes_str. unfold Strings.trimRight, Strings.trimLeft.
  intros H. rewrite elem_of_reverse in H. apply trimFront_elem in H.
  rewrite elem_of_reverse in H. by eapply trimFront_elem.
Qed.

(** ** What a loaded table looks like *)

Lemma entryLine_clean text v p :
  entryLine text v p ->
  v ≠ "" ∧ trimmed v ∧ (colon ∉ bytes v) ∧ p ≠ "" ∧ trimmed p.
Proof.
  intros (_ & a & b & _ & Ha & -> & -> & Hv & Hp).
  split; [done|]. split; [apply TrimSpace_idem|]. split; [|split; [done|apply TrimSpace_idem]].
  intros Hin. apply TrimSpace_elem in Hin. by rewrite bytes_str in Hin.
Qed.

Lemma loadLines_clean fs lines n config config' :
  (∀ k p, config !! k = Some p ->
     k ≠ "" ∧ trimmed k ∧ (colon ∉ bytes k) ∧ p ≠ "" ∧ trimmed p ∧ kept fs p) ->
  valueOf (loadLines lines n config fs) = Ok config' ->
  ∀ k p, config' !! k = Some p ->
    k ≠ "" ∧ trimmed k ∧ (colon ∉ bytes k) ∧ p ≠ "" ∧ trimmed p ∧ kept fs p.
Proof.
  revert n config. induction lines as [|t rest IH]; intros n config Hinv.
  { by intros [= <-]. }
  rewrite loadLines_cons. destruct (classify t) as [|v0 p0|err] eqn:E; [by apply IH| |done].
  cbv zeta. apply classify_entry, entryLine_clean in E.
  specialize (IH (S n) (if bool_decide (kept fs p0)
                        then <[v0 := p0]> config else config)).
  destruct (loadLines rest _ _ fs) as [[r fs'] ev]. apply IH.
  case_bool_decide as Hex; [|done].
  intros k p [[<- <-]|[_ Hk]]%lookup_insert_Some; [|by apply Hinv].
  destruct E as (? & ? & ? & ? & ?). done.
Qed.

Lemma loadConfig_invariant fs configPath :
  fsOf (loadConfig configPath fs) = fs
  ∧ ∀ config, valueOf (loadConfig configPath fs) = Ok config ->
      config ≠ ∅
      ∧ ∀ label path, config !! label = Some path ->
          label ≠ "" ∧ trimmed label ∧ (colon ∉ bytes label)
          ∧ path ≠ "" ∧ trimmed path ∧ kept fs path.
Proof.
  rewrite loadConfig_unfold.
  destruct (fs !! configPath) as [nd|]; [|done].
  pose proof (loadLines_fs (scanNode nd).1 0 ∅ fs) as Hfs.
  pose proof (loadLines_clean fs (scanNode nd).1 0 ∅) as Hclean.
  destruct (loadLines (scanNode nd).1 0 ∅ fs) as [[[config'|e] fs'] ev];
    unfold valueOf, fsOf in *; simpl in *; (split; [done|]); [|done].
  intros config. destruct (scanNode nd).2; [done|].
  case_bool_decide as Hsize; [done|]. intros [= <-]. split.
  - intros ->. by rewrite map_size_empty in Hsize.
  - apply (Hclean config'); [|done]. intros k p Hk. by rewrite lookup_empty in Hk.
Qed.

(** X1: [loadConfig] changes no file, and a table that it returns is not
    empty; each of its labels is non-empty, free of surrounding white
    space and free of the separator; each of its paths is non-empty,
    free of surrounding white space and was not reported as missing by
    [os.Stat]: something is at the path, or [os.Stat] fails at it for
    another reason (the path goes through a regular file, a name is too
    long, the name holds a NUL byte). *)
Theorem X1_loaded_table_invariant (fs : FileSys) (configPath : string) :
  let r := loadConfig configPath fs in
  fsOf r = fs
  ∧ ∀ config, valueOf r = Ok config ->
      config ≠ ∅
      ∧ ∀ label path, config !! label = Some path ->
          label ≠ "" ∧ trimmed label ∧ (colon ∉ bytes label)
          ∧ path ≠ "" ∧ trimmed path ∧ kept fs path.
Proof. intros r. apply loadConfig_invariant. Qed.

(** ** The test that admits an entry *)

Lemma not_kept_missing fs path : ¬ kept fs path <-> missing fs path.
Proof.
  split.
  - intros H. destruct (decide (missing fs path)) as [|Hm]; [done|].
    destruct H. by apply kept_not_missing.
  - intros H Hk. by apply kept_not_missing in Hk.
Qed.

(** X17: the table that [loadConfig] builds follows the test
    [os.IsNotExist], not existence.  When the scanner delivers the whole
    file and every line is blank, a comment or a well-formed two-part
    line, the table binds a label to a path exactly when a line reads
    [label: path], [os.Stat] did not report the path as missing, and no
    later line for the label has such a path; the warnings are those of
    the entries whose path [os.Stat] reported as missing.  So a path at
    which nothing exists but at which [os.Stat] fails for another reason
    is bound without a warning, although the source announces
    "Verify PHP executable exists". *)
Theorem X17_entries_kept (fs : FileSys) (configPath data : string)
    (lines : list string) :
  fs !! configPath = Some (File data) ->
  Bufio.Scan data = (lines, false) ->
  Forall (fun t => skipped t ∨ ∃ v p, twoParts t v p) lines ->
  let r := loadConfig configPath fs in
  ((∃ config, valueOf r = Ok config
              ∧ ∀ v p, config !! v = Some p <-> binds fs lines v p)
   ∨ (valueOf r = Err ErrNoValidVersions ∧ ∀ v p, ¬ binds fs lines v p))
  ∧ (∀ p k, EvPrint (MsgWarnExecutableNotFound p k) ∈ eventsOf r
            <-> ∃ i text v, k = S i ∧ lines !! i = Some text
                            ∧ entryLine text v p ∧ missing fs p).
Proof.
  intros Hfile Hscan Hall%wellformed_not_malformed r. unfold r.
  rewrite (loadConfig_run fs configPath data lines false Hfile Hscan).
  destruct (loadLines_table fs lines Hall 0 ∅) as (config & Hrun & Htab).
  pose proof (loadLines_warnings fs lines Hall 0 ∅) as Hwarn.
  destruct (loadLines lines 0 ∅ fs) as [[r0 fs'] ev].
  rewrite valueOf_run in Hrun. rewrite eventsOf_run in Hwarn.
  rewrite valueOf_run, eventsOf_run. subst r0.
  assert (∀ v p, config !! v = Some p <-> binds fs lines v p) as Htab'.
  { intros v p. rewrite Htab. split; [|by left].
    intros [?|[H _]]; [done|]. by rewrite lookup_empty in H. }
  split.
  - case_bool_decide as Hsize.
    + right. split; [done|]. intros v p Hy%Htab'.
      apply map_size_empty_iff in Hsize. subst config. by rewrite lookup_empty in Hy.
    + left. by exists config.
  - intros p k.
    assert ((∃ i text v, k = 0 + S i ∧ lines !! i = Some text
                         ∧ entryLine text v p ∧ ¬ kept fs p)
            <-> ∃ i text v, k = S i ∧ lines !! i = Some text
                            ∧ entryLine text v p ∧ missing fs p) as Hsame.
    { split; intros (i & text & v & Hk & Hi & He & Hp); exists i, text, v;
        repeat (split; [done|]); by apply not_kept_missing. }
    rewrite <- Hsame, <- Hwarn. split.
    + intros Hin. apply elem_of_cons in Hin as [Hin|Hin]; done.
    + intros Hin. by apply elem_of_cons; right.
Qed.

(** The interpreter is said to lie under [/etc/passwd], a regular file:
    nothing is at that path, and the entry is loaded all the same. *)
Lemma X17_entries_kept_witness :
  let data := "8.2: /etc/passwd/php" +:+ newline in
  let fs : FileSys := <["/etc/php-runner.yaml" := File data]>
                        {[ "/etc/passwd" := File "root" ]} in
  let r := loadConfig "/etc/php-runner.yaml" fs in
  (¬ pathExists fs "/etc/passwd/php"
   ∧ valueOf r = Ok {[ "8.2" := "/etc/passwd/php" ]}
   ∧ eventsOf r = [EvOpen "/etc/php-runner.yaml"; EvStat "/etc/passwd/php"])
  ∧ ((∃ config, valueOf r = Ok config
                ∧ ∀ v p, config !! v = Some p
                         <-> binds fs ["8.2: /etc/passwd/php"] v p)
     ∨ (valueOf r = Err ErrNoValidVersions
        ∧ ∀ v p, ¬ binds fs ["8.2: /etc/passwd/php"] v p))
  ∧ (∀ p k, EvPrint (MsgWarnExecutableNotFound p k) ∈ eventsOf r
            <-> ∃ i text v, k = S i ∧ ["8.2: /etc/passwd/php"] !! i = Some text
                            ∧ entryLine text v p ∧ missing fs p).
Proof.
  intros data fs r. split.
  - split; [by intros [? [=]]|]. split; reflexivity.
  - apply (X17_entries_kept fs "/etc/php-runner.yaml" data ["8.2: /etc/passwd/php"]).
    + reflexivity.
    + reflexivity.
    + apply Forall_cons. split; [|apply Forall_nil_2].
      right. exists "8.2", "/etc/passwd/php".
      assert (entryLine "8.2: /etc/passwd/php" "8.2" "/etc/passwd/php") as [_ H];
        [|exact H].
      apply classify_entry. reflexivity.
Defined.

(** ** How [loadConfig] fails *)

Lemma scanAll_err raw :
  (Bufio.scanAll raw).2 = true <-> Exists (fun l => Bufio.fits l = false) raw.
Proof.
  induction raw as [|l rest IH]; simpl.
  - split; [done|]. by intros ?%Exists_nil.
  - destruct (Bufio.fits l) eqn:E.
    + destruct (Bufio.scanAll rest) as [ts e]. simpl in *. rewrite IH, Exists_cons.
      split; [by right|]. intros [?|?]; [congruence|done].
    + simpl. split; [intros _; by apply Exists_cons_hd|done].
Qed.

Lemma loadLines_error fs lines n config e :
  valueOf (loadLines lines n config fs) = Err e ->
  ∃ k line, e = ErrInvalidFormat k line ∨ e = ErrEmptyField k line.
Proof.
  revert n config. induction lines as [|t rest IH]; intros n config; [done|].
  rewrite loadLines_cons. destruct (classify t) as [|v0 p0|err] eqn:E; [apply IH| |].
  - cbv zeta. specialize (IH (S n) (if bool_decide (kept fs p0)
                                    then <[v0 := p0]> config else config)).
    by destruct (loadLines rest _ _ fs) as [[r fs'] ev].
  - intros [= <-].
    assert (malformed t) as Hm by (apply malformed_classify; eauto).
    apply classify_invalid in Hm as [Hm|Hm]; rewrite Hm in E; injection E as <-; eauto.
Qed.

Lemma loadLines_skipped fs lines n config :
  Forall skipped lines -> loadLines lines n config fs = (Ok config, fs, []).
Proof.
  revert n. induction lines as [|t rest IH]; intros n Hall; [done|].
  apply Forall_cons in Hall as [Ht Hall]. rewrite loadLines_cons.
  apply classify_skipped in Ht. rewrite Ht. by apply IH.
Qed.

(** X2: [loadConfig] fails with the cannot-open error, after the one
    attempt to open, when nothing is at the path; with the read error
    when the path is a directory; with the read error or the error of an
    earlier malformed line when a line of the file does not fit the
    buffer of the scanner; and with the no-valid-versions error when the
    file holds blank lines and comments only.  None of these runs looks
    at any other path. *)
Theorem X2_load_failures (fs : FileSys) (configPath : string) :
  let r := loadConfig configPath fs in
  (fs !! configPath = None -> r = (Err ErrCannotOpen, fs, [EvOpen configPath]))
  ∧ (fs !! configPath = Some Directory ->
       r = (Err ErrReading, fs, [EvOpen configPath]))
  ∧ (∀ data, fs !! configPath = Some (File data) ->
       (Exists (fun l => Bufio.fits l = false) (Bufio.rawLines (bytes data)) ->
          valueOf r = Err ErrReading
          ∨ ∃ k line, valueOf r = Err (ErrInvalidFormat k line)
                      ∨ valueOf r = Err (ErrEmptyField k line))
       ∧ (Forall skipped (Bufio.Scan data).1 -> (Bufio.Scan data).2 = false ->
            r = (Err ErrNoValidVersions, fs, [EvOpen configPath]))).
Proof.
  intros r. unfold r. rewrite loadConfig_unfold. split; [|split].
  - by intros ->.
  - by intros ->.
  - intros data ->. cbn [scanNode]. split.
    + intros Hlong%scanAll_err. unfold Bufio.Scan. rewrite Hlong.
      pose proof (loadLines_error fs (Bufio.scanAll (Bufio.rawLines (bytes data))).1 0 ∅) as He.
      destruct (loadLines _ 0 ∅ fs) as [[[config|e] fs'] ev];
        unfold valueOf in *; simpl in *; [by left|].
      right. destruct (He e eq_refl) as (k & line & [->| ->]); eauto.
    + intros Hall Hscan. rewrite (loadLines_skipped fs _ 0 ∅ Hall), Hscan. done.
Qed.

(** ** The resolver always comes to an end *)

Lemma getPhpVersion_returns env cwd config fs :
  config ≠ ∅ ->
  ∃ v, valueOf (getPhpVersion env cwd config fs) = Return v ∧ is_Some (config !! v).
Proof.
  destruct (findPhpVersionFile_ancestors fs cwd) as (label & visited & Hrun & _).
  rewrite (getPhpVersion_run env cwd config fs label _ Hrun).
  assert (∀ v, index config v ≠ "" -> is_Some (config !! v)) as Hidx.
  { intros v. unfold index. destruct (config !! v); [by eexists|done]. }
  intros Hne. destruct (decide (usable config label)) as [[_ Hu]|_].
  { exists label. split; [done|]. by apply Hidx. }
  unfold fallback.
  destruct (decide (usable config (probed env))) as [[_ Hu]|_].
  { eexists. split; [done|]. by apply Hidx. }
  destruct (decide (index config defaultVersion ≠ "")) as [Hd|_].
  { eexists. split; [done|]. by apply Hidx. }
  destruct (rangeFirst (mapSeed env) config) as [ver|] eqn:Hr.
  - exists ver. split; [done|]. by eapply rangeFirst_Some.
  - by apply rangeFirst_None in Hr.
Qed.

(** X3: with a table that is not empty [getPhpVersion] returns a label,
    and that label is a key of the table; with an empty table it reads
    the marker files, runs the probe, prints that no version is valid
    and exits with status 1, writing nothing. *)
Theorem X3_resolution_returns_or_exits (env : Env) (cwd : string)
    (config : Config) (fs : FileSys) :
  let r := getPhpVersion env cwd config fs in
  (config ≠ ∅ -> ∃ v, valueOf r = Return v ∧ is_Some (config !! v))
  ∧ (config = ∅ ->
       ∃ reads, Forall isRead reads
                ∧ r = (Exit 1%Z, fs, reads ++ [probeEvent; EvPrint MsgNoValidVersion])).
Proof.
  intros r. unfold r.
  destruct (findPhpVersionFile_ancestors fs cwd) as (label & visited & Hrun & _).
  rewrite (getPhpVersion_run env cwd config fs label _ Hrun).
  assert (∀ v, index config v ≠ "" -> is_Some (config !! v)) as Hidx.
  { intros v. unfold index. destruct (config !! v); [by eexists|done]. }
  split.
  - rewrite <- (getPhpVersion_run env cwd config fs label _ Hrun).
    apply getPhpVersion_returns.
  - intros ->. exists (readMarker <$> visited). split; [apply reads_are_reads|].
    rewrite decide_False by (intros [_ H]; by apply H).
    unfold fallback. rewrite decide_False by (intros [_ H]; by apply H).
    rewrite decide_False by (intros H; by apply H).
    by rewrite (proj2 (rangeFirst_None _ ∅) eq_refl).
Qed.

(** ** The marker file that cannot be written *)

(** X4: when the marker path of the start directory is a directory,
    [getPhpVersion] changes no file; it returns the label of a marker
    further up after reads only, or returns the fallback label after the
    failed write and the warning, or exits for want of any label. *)
Theorem X4_unwritable_marker (env : Env) (cwd : string) (config : Config)
    (fs : FileSys) :
  fs !! markerPath cwd = Some Directory ->
  let r := getPhpVersion env cwd config fs in
  ∃ reads, Forall isRead reads
    ∧ (  (∃ label, usable config label ∧ r = (Return label, fs, reads))
       ∨ (∃ v, fallback env config = Some v
               ∧ r = (Return v, fs,
                      reads ++ [probeEvent;
                                EvWriteFile (markerPath cwd) (v +:+ newline);
                                EvPrint (MsgWarnCouldNotCreate (markerPath cwd))]))
       ∨ (fallback env config = None
          ∧ r = (Exit 1%Z, fs, reads ++ [probeEvent; EvPrint MsgNoValidVersion]))).
Proof.
  intros Hdir r. unfold r.
  destruct (findPhpVersionFile_ancestors fs cwd) as (label & visited & Hrun & _).
  rewrite (getPhpVersion_run env cwd config fs label _ Hrun).
  exists (readMarker <$> visited). split; [apply reads_are_reads|].
  destruct (decide (usable config label)) as [Hu|_]; [left; eauto|]. right.
  destruct (fallback env config) as [v|]; [left|by right].
  exists v. split; [done|]. rewrite createPhpVersionFile_run, Hdir. done.
Qed.

(** A directory sits where the marker file of [/srv/app] should be. *)
Lemma X4_unwritable_marker_witness :
  let fs : FileSys := {[ "/srv/app/.php-version" := Directory ]} in
  let r := getPhpVersion exampleEnv "/srv/app" exampleConfig fs in
  ∃ reads, Forall isRead reads
    ∧ (  (∃ label, usable exampleConfig label ∧ r = (Return label, fs, reads))
       ∨ (∃ v, fallback exampleEnv exampleConfig = Some v
               ∧ r = (Return v, fs,
                      reads ++ [probeEvent;
                                EvWriteFile (markerPath "/srv/app") (v +:+ newline);
                                EvPrint (MsgWarnCouldNotCreate (markerPath "/srv/app"))]))
       ∨ (fallback exampleEnv exampleConfig = None
          ∧ r = (Exit 1%Z, fs, reads ++ [probeEvent; EvPrint MsgNoValidVersion]))).
Proof.
  intros fs.
  exact (X4_unwritable_marker exampleEnv "/srv/app" exampleConfig fs eq_refl).
Defined.

(** ** The label of the locator *)

Lemma markerLabel_trimmed fs d : trimmed (markerLabel fs d).
Proof.
  unfold markerLabel. destruct (fs !! _) as [[content|]|]; try reflexivity.
  apply TrimSpace_idem.
Qed.

(** X5: the label that [findPhpVersionFile] returns has no white space
    at either end. *)
Theorem X5_found_label_trimmed (fs : FileSys) (startDir : string) :
  trimmed (valueOf (findPhpVersionFile startDir fs)).
Proof.
  destruct (findPhpVersionFile_ancestors fs startDir)
    as (label & visited & -> & [pre d post _ _ _|_]); unfold valueOf; simpl.
  - apply markerLabel_trimmed.
  - reflexivity.
Qed.

Lemma findLoop_footprint fs1 fs2 fuel d :
  (∀ x, x ∈ chain fuel d -> fs1 !! markerPath x = fs2 !! markerPath x) ->
  valueOf (findLoop fuel d fs1) = valueOf (findLoop fuel d fs2)
  ∧ eventsOf (findLoop fuel d fs1) = eventsOf (findLoop fuel d fs2).
Proof.
  revert d. induction fuel as [|fuel IH]; intros d Hagree; [done|].
  assert (markerLabel fs1 d = markerLabel fs2 d) as Hl.
  { unfold markerLabel. fold (markerPath d). rewrite (Hagree d); [done|].
    cbn [chain]. by left. }
  pose proof (readFile_markerLabel fs1 d) as H1.
  pose proof (readFile_markerLabel fs2 d) as H2.
  cbn [findLoop]. unfold bind, ret, OS.ReadFile, valueOf, eventsOf in *. simpl in *.
  rewrite H1, H2, Hl.
  case_bool_decide; [done|]. case_bool_decide as Hp; [done|].
  destruct (IH (Filepath.Dir d)) as [Hv He].
  { intros x Hx. apply Hagree. cbn [chain]. rewrite decide_False by done. by right. }
  unfold valueOf, eventsOf in *.
  destruct (findLoop fuel (Filepath.Dir d) fs1) as [[v1 f1] e1].
  destruct (findLoop fuel (Filepath.Dir d) fs2) as [[v2 f2] e2].
  simpl in *. by subst.
Qed.

(** X6: [findPhpVersionFile] depends on nothing but the marker files of
    the start directory and of the directories above it: on two file
    systems that agree on those paths it returns the same label after
    the same reads. *)
Theorem X6_find_footprint (fs1 fs2 : FileSys) (startDir : string) :
  (∀ d, d ∈ ancestors startDir -> fs1 !! markerPath d = fs2 !! markerPath d) ->
  valueOf (findPhpVersionFile startDir fs1) = valueOf (findPhpVersionFile startDir fs2)
  ∧ eventsOf (findPhpVersionFile startDir fs1)
    = eventsOf (findPhpVersionFile startDir fs2).
Proof.
  intros Hagree.
  destruct (findLoop_footprint fs1 fs2 (S (Filepath.depth startDir)) startDir Hagree)
    as [Hv He].
  unfold findPhpVersionFile, bind, ret, valueOf, eventsOf in *.
  destruct (findLoop _ startDir fs1) as [[v1 f1] e1].
  destruct (findLoop _ startDir fs2) as [[v2 f2] e2].
  simpl in *. by subst.
Qed.

(** Another executable appears; the markers stay. *)
Lemma X6_find_footprint_witness :
  valueOf (findPhpVersionFile "/srv/app" exampleFs)
  = valueOf (findPhpVersionFile "/srv/app" (<["/bin/php74" := File "ELF"]> exampleFs))
  ∧ eventsOf (findPhpVersionFile "/srv/app" exampleFs)
    = eventsOf (findPhpVersionFile "/srv/app" (<["/bin/php74" := File "ELF"]> exampleFs)).
Proof.
  apply (X6_find_footprint exampleFs (<["/bin/php74" := File "ELF"]> exampleFs) "/srv/app").
  intros d Hd. change (ancestors "/srv/app") with ["/srv/app"; "/srv"; "/"] in Hd.
  apply elem_of_cons in Hd as [->|Hd]; [reflexivity|].
  apply elem_of_cons in Hd as [->|Hd]; [reflexivity|].
  apply elem_of_cons in Hd as [->|Hd]; [reflexivity|].
  by apply elem_of_nil in Hd.
Defined.

(** ** A resolved version stays *)

Lemma find_after_write fs dir L :
  fs !! markerPath dir = Some (File (L +:+ newline)) ->
  L ≠ "" -> trimmed L ->
  findPhpVersionFile dir fs = (L, fs, [readMarker dir]).
Proof.
  intros Hm Hne Htrim.
  unfold findPhpVersionFile, bind at 1. cbn [findLoop].
  unfold bind at 1, OS.ReadFile. fold (markerPath dir). rewrite Hm.
  rewrite TrimSpace_newline by done.
  by rewrite bool_decide_eq_true_2 by done.
Qed.

(** X7: once [getPhpVersion] has returned a label for a directory whose
    marker path is not a directory, with a table whose paths are not
    empty and whose labels are trimmed (as [loadConfig] leaves them),
    every later resolution from that directory returns the same label
    after reads only and changes no file, whatever PHP is on PATH then
    and wherever the map iteration starts. *)
Theorem X7_resolution_stays (env env' : Env) (cwd : string) (config : Config)
    (fs : FileSys) (v : string) :
  validConfig config ->
  (∀ k, is_Some (config !! k) -> trimmed k) ->
  fs !! markerPath cwd ≠ Some Directory ->
  valueOf (getPhpVersion env cwd config fs) = Return v ->
  let fs1 := fsOf (getPhpVersion env cwd config fs) in
  valueOf (getPhpVersion env' cwd config fs1) = Return v
  ∧ fsOf (getPhpVersion env' cwd config fs1) = fs1
  ∧ Forall isRead (eventsOf (getPhpVersion env' cwd config fs1)).
Proof.
  intros Hvalid Htrim Hfile.
  destruct (findPhpVersionFile_ancestors fs cwd) as (label & visited & Hrun & _).
  rewrite (getPhpVersion_run env cwd config fs label _ Hrun).
  destruct (decide (usable config label)) as [Hu|Hu].
  - intros [= <-]. unfold fsOf. simpl.
    rewrite (getPhpVersion_run env' cwd config fs label _ Hrun).
    rewrite decide_True by done. split; [done|]. split; [done|]. apply reads_are_reads.
  - destruct (fallback env config) as [w|] eqn:Hfb; [|done].
    intros [= ->]. set (fs1 := fsOf (createPhpVersionFile cwd v fs)).
    change (fsOf (Return v, fs1, ?e)) with fs1. cbv zeta.
    destruct (fallback_bound env config v Hvalid Hfb) as (p & Hp & Hpne).
    assert (usable config v) as Huse.
    { split; [by destruct (Hvalid v p Hp)|]. unfold index. by rewrite Hp. }
    assert (fs1 !! markerPath cwd = Some (File (v +:+ newline))) as Hm.
    { unfold fs1. rewrite createPhpVersionFile_run.
      destruct (fs !! markerPath cwd) as [[]|] eqn:E; try done;
        unfold fsOf; simpl; by rewrite lookup_insert_eq. }
    pose proof (find_after_write _ cwd v Hm (proj1 Huse)
                  (Htrim v (ex_intro _ p Hp))) as Hfind.
    rewrite (getPhpVersion_run env' cwd config _ v _ Hfind).
    rewrite decide_True by done. split; [done|]. split; [done|].
    repeat constructor. by eexists.
Qed.

Lemma exampleConfig_trimmed k : is_Some (exampleConfig !! k) -> trimmed k.
Proof.
  unfold exampleConfig. intros [p Hp]. apply lookup_singleton_Some in Hp as [<- _].
  reflexivity.
Qed.

(** The default is written into an empty file system and found again
    when PHP 7.4 has come onto PATH. *)
Lemma X7_resolution_stays_witness :
  let env' := {| GOOS_windows := false; Getenv := fun _ => ""; Executable := None;
                 Getwd := None; Args := []; phpOutput := Some "PHP 7.4.3 (cli)";
                 runChild := fun _ _ => StartError; mapSeed := 7 |} in
  let fs1 := fsOf (getPhpVersion exampleEnv "/srv/app" exampleConfig ∅) in
  valueOf (getPhpVersion env' "/srv/app" exampleConfig fs1) = Return "8.2"
  ∧ fsOf (getPhpVersion env' "/srv/app" exampleConfig fs1) = fs1
  ∧ Forall isRead (eventsOf (getPhpVersion env' "/srv/app" exampleConfig fs1)).
Proof.
  intros env'.
  apply (X7_resolution_stays exampleEnv env' "/srv/app" exampleConfig ∅ "8.2").
  - exact exampleConfig_valid.
  - exact exampleConfig_trimmed.
  - vm_compute. discriminate.
  - reflexivity.
Defined.

(** ** The probe *)

Lemma digits_split l :
  l = (Regexp.digits l).1 ++ (Regexp.digits l).2
  ∧ Forall (fun c => Regexp.isDigit c = true) (Regexp.digits l).1
  ∧ noDigitAhead (Regexp.digits l).2.
Proof.
  induction l as [|c l (IH1 & IH2 & IH3)]; [by repeat split|].
  cbn [Regexp.digits]. destruct (Regexp.isDigit c) eqn:E.
  - destruct (Regexp.digits l) as [d r]. simpl in *. split; [by f_equal|].
    split; [by apply Forall_cons|done].
  - simpl. by repeat split.
Qed.

Lemma digits_app d r :
  Forall (fun c => Regexp.isDigit c = true) d -> noDigitAhead r ->
  Regexp.digits (d ++ r) = (d, r).
Proof.
  intros Hd Hr. induction Hd as [|c d Hc _ IH]; simpl.
  - destruct r as [|c r]; [done|]. simpl in *. by rewrite Hr.
  - by rewrite Hc, IH.
Qed.

Lemma stripPrefix_app p l : Regexp.stripPrefix p (p ++ l) = Some l.
Proof. induction p as [|a p IH]; simpl; [done|]. by rewrite decide_True. Qed.

Lemma matchHere_shape l g :
  Regexp.matchHere l = Some g -> majorMinor (str g).
Proof.
  unfold Regexp.matchHere, majorMinor.
  destruct (Regexp.stripPrefix _ l) as [r|]; [|done].
  pose proof (digits_split r) as (_ & H1 & _).
  destruct (Regexp.digits r) as [d1 [|dot r1]]; [done|]. simpl in H1.
  case_bool_decide as Hd1; [done|]. case_bool_decide as Hdot; [|done]. simpl.
  pose proof (digits_split r1) as (_ & H2 & _).
  destruct (Regexp.digits r1) as [[|c d2] r2]; [done|]. simpl in H2.
  intros [= <-]. exists d1, (c :: d2). rewrite bytes_str, Hdot. by repeat split.
Qed.

Lemma findGroup_shape l g :
  Regexp.findGroup l = Some g -> majorMinor (str g).
Proof.
  induction l as [|a l IH]; cbn [Regexp.findGroup];
    destruct (Regexp.matchHere _) as [g'|] eqn:E; try done;
    intros [= <-]; by eapply matchHere_shape.
Qed.

Lemma digit_not_byteIs c k :
  Regexp.isDigit c = true -> (k < 48 ∨ 57 < k)%N -> byteIs k c = false.
Proof.
  unfold Regexp.isDigit, byteIn, byteIs. intros H Hk.
  apply andb_true_iff in H as [H1%N.leb_le H2%N.leb_le]. apply N.eqb_neq. lia.
Qed.

Lemma digit_not_byteIn c lo hi :
  Regexp.isDigit c = true -> (hi < 48 ∨ 57 < lo)%N -> byteIn lo hi c = false.
Proof.
  unfold Regexp.isDigit, byteIn. intros H Hk.
  apply andb_true_iff in H as [H1%N.leb_le H2%N.leb_le].
  apply andb_false_iff. destruct Hk; [right|left]; apply N.leb_gt; lia.
Qed.

Lemma digit_not_space c :
  Regexp.isDigit c = true ->
  Unicode.isSpace1 c = false
  ∧ (∀ x, Unicode.isSpace2 c x = false ∧ Unicode.isSpace2 x c = false)
  ∧ (∀ x y, Unicode.isSpace3 c x y = false ∧ Unicode.isSpace3 x y c = false).
Proof.
  intros Hc. unfold Unicode.isSpace1, Unicode.isSpace2, Unicode.isSpace3.
  rewrite !(digit_not_byteIs c) by (done || lia).
  rewrite !(digit_not_byteIn c) by (done || lia).
  split; [done|]. split; intros; rewrite ?andb_false_r; done.
Qed.

Lemma spaceFront_digit sp2 sp3 c l :
  Unicode.isSpace1 c = false -> (∀ x, sp2 c x = false) -> (∀ x y, sp3 c x y = false) ->
  spaceFront sp2 sp3 (c :: l) = false.
Proof.
  intros H1 H2 H3. cbn [spaceFront]. rewrite H1. destruct l as [|b [|c' l]]; simpl;
    by rewrite ?H2, ?H3.
Qed.

Lemma majorMinor_trimmed s : majorMinor s -> s ≠ "" ∧ trimmed s.
Proof.
  intros (major & minor & Hs & [Hm1 Hm2] & [Hn1 Hn2]). split.
  { intros ->. by destruct major. }
  unfold trimmed, Strings.TrimSpace. rewrite Hs. apply str_eq_iff.
  assert (Strings.trimLeft (major ++ "."%char :: minor) = major ++ "."%char :: minor) as ->.
  { destruct major as [|c major]; [done|]. apply Forall_cons in Hm2 as [Hc _].
    destruct (digit_not_space c Hc) as (H1 & H2 & H3).
    apply trimFront_fixed. apply spaceFront_digit; [done|apply H2|apply H3]. }
  unfold Strings.trimRight.
  destruct (reverse (major ++ "."%char :: minor)) as [|c rest] eqn:E.
  { apply (f_equal reverse) in E. rewrite reverse_involutive in E. by destruct major. }
  assert (Regexp.isDigit c = true) as Hc.
  { assert (last (major ++ "."%char :: minor) = Some c) as Hl.
    { rewrite <- (reverse_involutive (_ ++ _)), E. by rewrite reverse_cons, last_snoc. }
    rewrite last_app_cons, last_cons in Hl.
    destruct (last minor) as [c'|] eqn:El; [|by destruct minor using rev_ind;
      [|rewrite last_snoc in El]].
    injection Hl as ->. rewrite Forall_forall in Hn2. apply Hn2.
    apply last_Some in El as [l' ->]. apply elem_of_app. right. by left. }
  destruct (digit_not_space c Hc) as (H1 & H2 & H3).
  rewrite trimFront_fixed; [by rewrite <- E, reverse_involutive|].
  apply spaceFront_digit; [done| |]; intros; [apply H2|apply H3].
Qed.

(** X8: [getCurrentPhpVersion] touches no file and runs [php --version]
    once; it returns nothing when that fails, and otherwise nothing or a
    label [major.minor] of decimal digits, which has no white space
    around it. *)
Theorem X8_probe_label (env : Env) (fs : FileSys) :
  let r := getCurrentPhpVersion env fs in
  fsOf r = fs
  ∧ eventsOf r = [EvExec "php" ["--version"]]
  ∧ (phpOutput env = None -> valueOf r = "")
  ∧ (valueOf r = "" ∨ majorMinor (valueOf r))
  ∧ trimmed (valueOf r).
Proof.
  intros r. unfold r. rewrite getCurrentPhpVersion_run. unfold valueOf, fsOf, eventsOf.
  simpl. split; [done|]. split; [done|]. unfold probed. split; [by intros ->|].
  destruct (phpOutput env) as [out|]; [|by split; [left|]].
  destruct (Regexp.findGroup (bytes out)) as [g|] eqn:E; [|by split; [left|]].
  apply findGroup_shape in E. split; [by right|]. by apply majorMinor_trimmed.
Qed.

(** X9: when the output of [php --version] starts with [PHP ], a run of
    digits, a dot and a run of digits that no digit follows, the probe
    returns those two numbers joined by the dot. *)
Theorem X9_probe_standard_output (env : Env) (fs : FileSys)
    (major minor rest : list ascii) :
  number major -> number minor -> noDigitAhead rest ->
  phpOutput env = Some ("PHP " +:+ str major +:+ "." +:+ str minor +:+ str rest) ->
  valueOf (getCurrentPhpVersion env fs) = str major +:+ "." +:+ str minor.
Proof.
  intros [Hm1 Hm2] [Hn1 Hn2] Hrest Hout.
  rewrite getCurrentPhpVersion_run. unfold valueOf, probed. simpl. rewrite Hout.
  rewrite !bytes_app, !bytes_str.
  assert (Regexp.matchHere (bytes "PHP " ++ major ++ bytes "." ++ minor ++ rest)
          = Some (major ++ "."%char :: minor)) as Hmatch.
  { unfold Regexp.matchHere. rewrite stripPrefix_app.
    rewrite (digits_app major (bytes "." ++ minor ++ rest)) by done.
    cbn [bytes String.list_ascii_of_string app].
    rewrite bool_decide_eq_false_2 by done. rewrite bool_decide_eq_true_2 by done. simpl.
    rewrite (digits_app minor rest) by done. by destruct minor. }
  assert (∀ l g, Regexp.matchHere l = Some g -> Regexp.findGroup l = Some g) as Hfind.
  { intros l g H. destruct l; cbn [Regexp.findGroup]; by rewrite H. }
  rewrite (Hfind _ _ Hmatch). apply bytes_inj.
  by rewrite bytes_str, !bytes_app, !bytes_str.
Qed.

(** The first line that PHP 8.2.0 prints. *)
Lemma X9_probe_standard_output_witness :
  let env := {| GOOS_windows := false; Getenv := fun _ => ""; Executable := None;
                Getwd := None; Args := [];
                phpOutput := Some "PHP 8.2.0 (cli) (built: Dec  6 2022) (NTS)";
                runChild := fun _ _ => StartError; mapSeed := 0 |} in
  valueOf (getCurrentPhpVersion env ∅) = "8.2".
Proof.
  intros env.
  apply (X9_probe_standard_output env ∅ (bytes "8") (bytes "2")
           (bytes ".0 (cli) (built: Dec  6 2022) (NTS)")).
  - split; [discriminate|]. repeat constructor.
  - split; [discriminate|]. repeat constructor.
  - reflexivity.
  - reflexivity.
Defined.

(** ** The whole run *)

(** Writing a file takes no path out of the reach of [os.Stat]: what
    was there stays, and a path that went through a regular file still
    does. *)
Lemma isFile_insert fs m data d :
  OS.isFile fs d = true -> OS.isFile (<[m := File data]> fs) d = true.
Proof.
  unfold OS.isFile. destruct (decide (m = d)) as [->|Hne].
  - by rewrite lookup_insert_eq.
  - by rewrite lookup_insert_ne.
Qed.

Lemma kept_insert fs m data q :
  kept fs q -> kept (<[m := File data]> fs) q.
Proof.
  intros [Hq|Hq].
  - left. unfold pathExists in *. destruct (decide (m = q)) as [->|Hne].
    + rewrite lookup_insert_eq. by eexists.
    + by rewrite lookup_insert_ne.
  - right. revert Hq. unfold OS.statError.
    destruct (existsb (byteIs 0) (bytes q)); [done|].
    destruct (OS.pathMax <=? length (bytes q)); [done|].
    destruct (existsb (OS.isFile fs) (OS.through [] (bytes q))) eqn:E.
    + intros _. apply existsb_exists in E as (d & Hd & Hfile).
      replace (existsb (OS.isFile (<[m := File data]> fs)) (OS.through [] (bytes q)))
        with true; [done|].
      symmetry. apply existsb_exists. exists d. split; [done|]. by apply isFile_insert.
    + intros H.
      by destruct (existsb (OS.isFile (<[m := File data]> fs)) (OS.through [] (bytes q))).
Qed.

(** The resolver leaves every path but the marker of its directory as it
    was, and whatever [os.Stat] did not report as missing is not
    reported as missing afterwards. *)
Lemma getPhpVersion_frame env cwd config fs :
  (∀ q, q ≠ markerPath cwd -> fsOf (getPhpVersion env cwd config fs) !! q = fs !! q)
  ∧ ∀ q, kept fs q -> kept (fsOf (getPhpVersion env cwd config fs)) q.
Proof.
  destruct (findPhpVersionFile_ancestors fs cwd) as (label & visited & Hrun & _).
  rewrite (getPhpVersion_run env cwd config fs label _ Hrun).
  destruct (decide (usable config label)); [done|].
  destruct (fallback env config) as [v|]; [|done].
  unfold fsOf at 1 3. cbn [fst snd]. rewrite createPhpVersionFile_run.
  destruct (fs !! markerPath cwd) as [[]|] eqn:Hm; unfold fsOf; cbn [fst snd];
    try done; (split; [intros q Hq; by rewrite lookup_insert_ne|]);
    intros q Hq; by apply kept_insert.
Qed.

(** The run of [main], stage by stage. *)
Lemma main_outcomes env fs :
  let e1 := eventsOf (findConfigFile env fs) in
  match valueOf (findConfigFile env fs) with
  | (_, Some e) =>
      main env fs = (1%Z, fs, e1 ++ [EvPrint (MsgErrorFindingConfig e)])
  | (configPath, None) =>
      let e2 := eventsOf (loadConfig configPath fs) in
      match valueOf (loadConfig configPath fs) with
      | Err e =>
          main env fs
          = (1%Z, fs, e1 ++ e2 ++ [EvPrint (MsgErrorLoadingConfig configPath e)])
      | Ok config =>
          match Getwd env with
          | None => main env fs = (1%Z, fs, e1 ++ e2 ++ [EvPrint MsgErrorGetwd])
          | Some cwd =>
              ∃ version phpPath,
                valueOf (getPhpVersion env cwd config fs) = Return version
                ∧ config !! version = Some phpPath
                ∧ kept fs phpPath
                ∧ main env fs
                  = (match runChild env phpPath (Args env) with
                     | StartError => 1%Z
                     | Finished status => Syscall.ExitStatus status
                     end,
                     fsOf (getPhpVersion env cwd config fs),
                     e1 ++ e2 ++ eventsOf (getPhpVersion env cwd config fs)
                     ++ [EvStat phpPath; EvRun phpPath (Args env)]
                     ++ match runChild env phpPath (Args env) with
                        | StartError => [EvPrint MsgErrorExecuting]
                        | Finished _ => []
                        end)
          end
      end
  end.
Proof.
  cbv zeta. remember (main env fs) as r eqn:Hr. revert Hr.
  unfold main. unfold bind at 1.
  destruct (findConfigFile_harmless env fs) as [Hfs1 _].
  destruct (findConfigFile env fs) as [[[configPath err] fs1] e1].
  unfold fsOf in Hfs1. simpl in Hfs1. subst fs1.
  change (valueOf (configPath, err, fs, e1)) with (configPath, err).
  change (eventsOf (configPath, err, fs, e1)) with e1.
  destruct err as [e|].
  { intros ->. by unfold bind, OS.Printf, ret. }
  unfold bind at 1.
  destruct (loadConfig_harmless configPath fs) as [Hfs2 _].
  pose proof (loadConfig_invariant fs configPath) as [_ Hinv].
  destruct (loadConfig configPath fs) as [[loaded fs2] e2].
  unfold fsOf in Hfs2. unfold valueOf in Hinv. simpl in Hfs2, Hinv. subst fs2.
  change (valueOf (loaded, fs, e2)) with loaded.
  change (eventsOf (loaded, fs, e2)) with e2.
  destruct loaded as [config|e].
  2:{ intros ->. by unfold bind, OS.Printf, ret. }
  destruct (Hinv config eq_refl) as [Hne Hentries]. clear Hinv.
  destruct (Getwd env) as [cwd|].
  2:{ intros ->. by unfold bind, OS.Printf, ret. }
  unfold bind at 1.
  destruct (getPhpVersion_returns env cwd config fs Hne) as (version & Hv & phpPath & Hp).
  destruct (getPhpVersion_frame env cwd config fs) as [_ Hkeep].
  destruct (getPhpVersion env cwd config fs) as [[res fs3] e3].
  unfold valueOf in Hv. unfold fsOf in Hkeep. simpl in Hv, Hkeep. subst res.
  rewrite Hp. unfold bind at 1.
  destruct (Stat_run fs3 phpPath) as (err & -> & _ & ->).
  destruct (Hentries version phpPath Hp) as (_ & _ & _ & _ & _ & Hex).
  rewrite bool_decide_eq_true_2 by by apply Hkeep.
  intros ->. exists version, phpPath. repeat (split; [done|]).
  unfold bind, Exec.Run, fsOf, eventsOf. cbn [OS.IsNotExist fst snd].
  destruct (runChild env phpPath (Args env)) as [|status]; simpl.
  - done.
  - case_bool_decide as Hs; simpl; by rewrite ?Hs.
Qed.

(** What the resolver leaves behind: the files as they were, or the
    marker of its directory holding the label that it returns. *)
Lemma getPhpVersion_written env cwd config fs :
  fsOf (getPhpVersion env cwd config fs) = fs
  ∨ ∃ version,
      valueOf (getPhpVersion env cwd config fs) = Return version
      ∧ fs !! markerPath cwd ≠ Some Directory
      ∧ fsOf (getPhpVersion env cwd config fs)
        = <[markerPath cwd := File (version +:+ newline)]> fs
      ∧ EvPrint (MsgCreated (markerPath cwd) version)
        ∈ eventsOf (getPhpVersion env cwd config fs).
Proof.
  destruct (findPhpVersionFile_ancestors fs cwd) as (label & visited & Hrun & _).
  rewrite (getPhpVersion_run env cwd config fs label _ Hrun).
  destruct (decide (usable config label)); [by left|].
  destruct (fallback env config) as [v|]; [|by left].
  unfold fsOf, valueOf, eventsOf. cbn [fst snd]. rewrite createPhpVersionFile_run.
  destruct (fs !! markerPath cwd) as [[]|] eqn:Hm; cbn [fst snd];
    [right; exists v|by left|right; exists v];
    (split; [done|]); (split; [done|]); (split; [done|]);
    rewrite elem_of_app, !elem_of_cons; tauto.
Qed.

Lemma harmless_no_run es path args : Forall harmless es -> EvRun path args ∉ es.
Proof.
  intros Hall Hin. rewrite Forall_forall in Hall.
  destruct (Hall _ Hin) as [Hr _]. apply Hr. by eexists _, _.
Qed.

Lemma harmless_no_fatal es m : Forall harmless es -> fatal m -> EvPrint m ∉ es.
Proof.
  intros Hall Hm Hin. rewrite Forall_forall in Hall.
  destruct (Hall _ Hin) as [_ Hp]. by apply (Hp m).
Qed.

Ltac absurd_event :=
  match goal with
  | Hq : Forall harmless ?es, Hin : EvRun _ _ ∈ ?es |- _ =>
      by destruct (harmless_no_run es _ _ Hq Hin)
  | Hq : Forall harmless ?es, Hm : fatal ?m, Hin : EvPrint ?m ∈ ?es |- _ =>
      by destruct (harmless_no_fatal es m Hq Hm Hin)
  end.

(** X10: [main] changes no file, except that it may write the marker of
    the working directory; when it does, the marker holds the label of
    an entry of the table loaded from the configuration file that was
    found, followed by a newline, the creation is reported, and the
    interpreter of that very entry is started afterwards. *)
Theorem X10_main_writes_marker_only (env : Env) (fs : FileSys) :
  let r := main env fs in
  fsOf r = fs
  ∨ ∃ cwd configPath config version phpPath,
      Getwd env = Some cwd
      ∧ valueOf (findConfigFile env fs) = (configPath, None)
      ∧ valueOf (loadConfig configPath fs) = Ok config
      ∧ config !! version = Some phpPath
      ∧ fs !! markerPath cwd ≠ Some Directory
      ∧ fsOf r = <[markerPath cwd := File (version +:+ newline)]> fs
      ∧ EvPrint (MsgCreated (markerPath cwd) version) ∈ eventsOf r
      ∧ EvRun phpPath (Args env) ∈ eventsOf r.
Proof.
  intros r. unfold r. pose proof (main_outcomes env fs) as H. cbv zeta in H.
  destruct (valueOf (findConfigFile env fs)) as [configPath [e|]] eqn:Hfound.
  { rewrite H. by left. }
  destruct (valueOf (loadConfig configPath fs)) as [config|e] eqn:Hload.
  2:{ rewrite H. by left. }
  destruct (Getwd env) as [cwd|].
  2:{ rewrite H. by left. }
  destruct H as (version & phpPath & Hv & Hp & _ & ->).
  destruct (getPhpVersion_written env cwd config fs)
    as [Hfs|(w & Hw & Hdir & Hfs & Hmsg)]; [by left|].
  right. exists cwd, configPath, config, version, phpPath.
  assert (w = version) as -> by congruence.
  rewrite fsOf_run, !eventsOf_run.
  repeat (split; [done|]).
  rewrite !elem_of_app, !elem_of_cons. tauto.
Qed.

(** X11: [main] starts a child exactly when the configuration file is
    found, loads into a table, and the working directory is known; the
    child is then the interpreter of an entry of that table, at a path
    that [os.Stat] did not report as missing when the run began
    (something was there, or [os.Stat] failed for another reason), and
    it receives the arguments of the command line. *)
Theorem X11_main_launch (env : Env) (fs : FileSys) :
  let r := main env fs in
  ((∃ phpPath args, EvRun phpPath args ∈ eventsOf r)
   <-> ∃ configPath config,
         valueOf (findConfigFile env fs) = (configPath, None)
         ∧ valueOf (loadConfig configPath fs) = Ok config
         ∧ is_Some (Getwd env))
  ∧ ∀ phpPath args, EvRun phpPath args ∈ eventsOf r ->
      args = Args env
      ∧ kept fs phpPath
      ∧ ∃ configPath config version,
          valueOf (findConfigFile env fs) = (configPath, None)
          ∧ valueOf (loadConfig configPath fs) = Ok config
          ∧ config !! version = Some phpPath.
Proof.
  intros r. unfold r. pose proof (main_outcomes env fs) as H. cbv zeta in H.
  destruct (findConfigFile_harmless env fs) as [_ Hq1].
  destruct (valueOf (findConfigFile env fs)) as [configPath [e|]].
  { rewrite H. rewrite !eventsOf_run.
    assert (∀ p a, EvRun p a ∉ eventsOf (findConfigFile env fs)
                             ++ [EvPrint (MsgErrorFindingConfig e)]) as Hno.
    { intros p a. rewrite elem_of_app, list_elem_of_singleton.
      intros [Hin|[=]]. absurd_event. }
    split; [split|].
    - intros (p & a & Hin). by destruct (Hno p a).
    - by intros (? & ? & [=] & _).
    - intros p a Hin. by destruct (Hno p a). }
  destruct (loadConfig_harmless configPath fs) as [_ Hq2].
  destruct (valueOf (loadConfig configPath fs)) as [config|e] eqn:Hload.
  2:{ rewrite H. rewrite !eventsOf_run.
      assert (∀ p a, EvRun p a ∉ eventsOf (findConfigFile env fs)
                       ++ eventsOf (loadConfig configPath fs)
                       ++ [EvPrint (MsgErrorLoadingConfig configPath e)]) as Hno.
      { intros p a. rewrite !elem_of_app, list_elem_of_singleton.
        intros [Hin|[Hin|[=]]]; absurd_event. }
      split; [split|].
      - intros (p & a & Hin). by destruct (Hno p a).
      - intros (? & ? & [= <-] & Hl & _). congruence.
      - intros p a Hin. by destruct (Hno p a). }
  destruct (Getwd env) as [cwd|].
  2:{ rewrite H. rewrite !eventsOf_run.
      assert (∀ p a, EvRun p a ∉ eventsOf (findConfigFile env fs)
                       ++ eventsOf (loadConfig configPath fs)
                       ++ [EvPrint MsgErrorGetwd]) as Hno.
      { intros p a. rewrite !elem_of_app, list_elem_of_singleton.
        intros [Hin|[Hin|[=]]]; absurd_event. }
      split; [split|].
      - intros (p & a & Hin). by destruct (Hno p a).
      - by intros (? & ? & _ & _ & [? [=]]).
      - intros p a Hin. by destruct (Hno p a). }
  destruct H as (version & phpPath & Hv & Hp & Hex & ->).
  pose proof (getPhpVersion_events env cwd config fs) as Hq3. rewrite Hv in Hq3.
  rewrite !eventsOf_run.
  split; [split|].
  - intros _. exists configPath, config. split; [done|]. split; [done|]. by eexists.
  - intros _. exists phpPath, (Args env). rewrite !elem_of_app, !elem_of_cons. tauto.
  - intros p a. rewrite !elem_of_app, !elem_of_cons.
    intros [Hin|[Hin|[Hin|[[[=]|[[= -> ->]|Hin]]|Hin]]]];
      try absurd_event.
    + split; [done|]. split; [done|]. by exists configPath, config, version.
    + by apply elem_of_nil in Hin.
    + destruct (runChild env phpPath (Args env)).
      * by apply list_elem_of_singleton in Hin.
      * by apply elem_of_nil in Hin.
Qed.

(** X12: three of the exits of [main] are never taken as long as nothing
    else changes the files during the run: a loaded table is not empty,
    the resolver returns one of its labels, and [main] repeats on the
    path of that label the very test of [os.Stat] that the path passed
    when the table was loaded, which writing the marker cannot make
    fail.  So [main] never reports that no version is available, that
    the resolved version is missing from the table, or that the
    interpreter is missing. *)
Theorem X12_main_unreachable_exits (env : Env) (fs : FileSys) :
  let r := main env fs in
  (EvPrint MsgNoValidVersion ∉ eventsOf r)
  ∧ (∀ version, EvPrint (MsgVersionNotInConfig version) ∉ eventsOf r)
  ∧ (∀ phpPath, EvPrint (MsgExecutableNotFound phpPath) ∉ eventsOf r).
Proof.
  intros r. unfold r.
  enough (∀ m, fatal m -> EvPrint m ∈ eventsOf (main env fs) ->
            (∃ e, m = MsgErrorFindingConfig e)
            ∨ (∃ p e, m = MsgErrorLoadingConfig p e)
            ∨ m = MsgErrorGetwd ∨ m = MsgErrorExecuting) as Hm.
  { split; [|split]; [|intros v|intros p]; intros Hin;
      (apply Hm in Hin; [|exact I]);
      by destruct Hin as [(? & [=])|[(? & ? & [=])|[[=]|[=]]]]. }
  intros m Hfatal. pose proof (main_outcomes env fs) as H. cbv zeta in H.
  destruct (findConfigFile_harmless env fs) as [_ Hq1].
  destruct (valueOf (findConfigFile env fs)) as [configPath [e|]].
  { rewrite H. rewrite !eventsOf_run.
    rewrite elem_of_app, list_elem_of_singleton.
    intros [Hin|[= ->]]; [absurd_event|eauto]. }
  destruct (loadConfig_harmless configPath fs) as [_ Hq2].
  destruct (valueOf (loadConfig configPath fs)) as [config|e] eqn:Hload.
  2:{ rewrite H. rewrite !eventsOf_run.
      rewrite !elem_of_app, list_elem_of_singleton.
      intros [Hin|[Hin|[= ->]]]; [absurd_event|absurd_event|eauto 6]. }
  destruct (Getwd env) as [cwd|].
  2:{ rewrite H. rewrite !eventsOf_run.
      rewrite !elem_of_app, list_elem_of_singleton.
      intros [Hin|[Hin|[= ->]]]; [absurd_event|absurd_event|eauto 6]. }
  destruct H as (version & phpPath & Hv & Hp & Hex & ->).
  pose proof (getPhpVersion_events env cwd config fs) as Hq3. rewrite Hv in Hq3.
  rewrite !eventsOf_run.
  rewrite !elem_of_app, !elem_of_cons.
  intros [Hin|[Hin|[Hin|[[[=]|[[=]|Hin]]|Hin]]]];
    try absurd_event.
  - by apply elem_of_nil in Hin.
  - destruct (runChild env phpPath (Args env)).
    + apply list_elem_of_singleton in Hin as [= ->]. eauto.
    + by apply elem_of_nil in Hin.
Qed.

(** X13: on Linux, where the wait status of the child is decoded as
    [Syscall.ExitStatus] has it, the status with which [main] ends is -1
    or lies between 0 and 255.  A run in which no child was started and
    waited for ends with 1.  The status is 0 only when the child was
    started and exited with code 0, and -1 only when the child was
    started and did not exit by itself (it was ended by a signal). *)
Theorem X13_main_status (env : Env) (fs : FileSys) :
  GOOS_windows env = false ->
  let r := main env fs in
  (valueOf r = (-1)%Z ∨ (0 <= valueOf r < 256)%Z)
  ∧ ((¬ ∃ phpPath status,
          EvRun phpPath (Args env) ∈ eventsOf r
          ∧ runChild env phpPath (Args env) = Finished status) ->
     valueOf r = 1%Z)
  ∧ (valueOf r = 0%Z ->
       ∃ phpPath status,
         EvRun phpPath (Args env) ∈ eventsOf r
         ∧ runChild env phpPath (Args env) = Finished status
         ∧ Syscall.Exited status = true
         ∧ Z.land (Z.shiftr status 8) 0xFF = 0%Z)
  ∧ (valueOf r = (-1)%Z ->
       ∃ phpPath status,
         EvRun phpPath (Args env) ∈ eventsOf r
         ∧ runChild env phpPath (Args env) = Finished status
         ∧ Syscall.Exited status = false).
Proof.
  intros _ r. unfold r. pose proof (main_outcomes env fs) as H. cbv zeta in H.
  destruct (valueOf (findConfigFile env fs)) as [configPath [e|]].
  { rewrite H, valueOf_run. split; [right; lia|]. by repeat split. }
  destruct (valueOf (loadConfig configPath fs)) as [config|e].
  2:{ rewrite H, valueOf_run. split; [right; lia|]. by repeat split. }
  destruct (Getwd env) as [cwd|].
  2:{ rewrite H, valueOf_run. split; [right; lia|]. by repeat split. }
  destruct H as (version & phpPath & _ & _ & _ & ->).
  rewrite valueOf_run, eventsOf_run.
  assert (EvRun phpPath (Args env)
          ∈ eventsOf (findConfigFile env fs) ++ eventsOf (loadConfig configPath fs)
            ++ eventsOf (getPhpVersion env cwd config fs)
            ++ [EvStat phpPath; EvRun phpPath (Args env)]
            ++ match runChild env phpPath (Args env) with
               | StartError => [EvPrint MsgErrorExecuting]
               | Finished _ => []
               end) as Hin.
  { rewrite !elem_of_app, !elem_of_cons. tauto. }
  destruct (runChild env phpPath (Args env)) as [|status] eqn:Hchild.
  { split; [right; lia|]. by repeat split. }
  assert (∃ phpPath0 status0,
            EvRun phpPath0 (Args env)
            ∈ eventsOf (findConfigFile env fs) ++ eventsOf (loadConfig configPath fs)
              ++ eventsOf (getPhpVersion env cwd config fs)
              ++ [EvStat phpPath; EvRun phpPath (Args env)] ++ []
            ∧ runChild env phpPath0 (Args env) = Finished status0) as Hran.
  { by exists phpPath, status. }
  unfold Syscall.ExitStatus.
  destruct (Syscall.Exited status) eqn:Hexited.
  - change 255%Z with (Z.ones 8). rewrite Z.land_ones by lia.
    pose proof (Z.mod_pos_bound (Z.shiftr status Syscall.shift) (2 ^ 8) ltac:(lia)).
    split; [right; lia|]. split; [by intros []|]. split.
    + intros H0. exists phpPath, status. repeat (split; [done|]).
      change 255%Z with (Z.ones 8). by rewrite Z.land_ones by lia.
    + lia.
  - split; [by left|]. split; [by intros []|]. split; [done|].
    intros _. by exists phpPath, status.
Qed.

(** The run of the example: PHP 8.2 exits with code 3. *)
Lemma X13_main_status_witness :
  let r := main exampleEnv exampleFs in
  (valueOf r = (-1)%Z ∨ (0 <= valueOf r < 256)%Z)
  ∧ ((¬ ∃ phpPath status,
          EvRun phpPath (Args exampleEnv) ∈ eventsOf r
          ∧ runChild exampleEnv phpPath (Args exampleEnv) = Finished status) ->
     valueOf r = 1%Z)
  ∧ (valueOf r = 0%Z ->
       ∃ phpPath status,
         EvRun phpPath (Args exampleEnv) ∈ eventsOf r
         ∧ runChild exampleEnv phpPath (Args exampleEnv) = Finished status
         ∧ Syscall.Exited status = true
         ∧ Z.land (Z.shiftr status 8) 0xFF = 0%Z)
  ∧ (valueOf r = (-1)%Z ->
       ∃ phpPath status,
         EvRun phpPath (Args exampleEnv) ∈ eventsOf r
         ∧ runChild exampleEnv phpPath (Args exampleEnv) = Finished status
         ∧ Syscall.Exited status = false).
Proof. exact (X13_main_status exampleEnv exampleFs eq_refl). Defined.

(** ** Where the configuration file is looked for *)

Lemma firstPath_hit fs paths p probed :
  firstPath fs paths (Some p) probed -> p ∈ paths ∧ pathExists fs p.
Proof.
  inversion 1 as [pre q post Hl Hpre Hq|]; subst. split; [|done].
  rewrite elem_of_app, elem_of_cons. tauto.
Qed.

Lemma firstPath_miss fs paths probed :
  firstPath fs paths None probed -> Forall (fun x => ¬ pathExists fs x) paths.
Proof. by inversion 1. Qed.

Lemma envPath_nil env name file : envPath env name file = [] <-> Getenv env name = "".
Proof.
  unfold envPath. case_bool_decide as H; by split.
Qed.

(** X14: [findConfigFile] succeeds exactly when something exists at one
    of its search paths, and the path that it returns is then one of
    them and exists.  It fails for want of any location only on Windows
    with USERPROFILE, APPDATA and PROGRAMDATA unset and the path of the
    executable unknown: elsewhere the two system-wide paths are always
    there to be probed. *)
Theorem X14_discovery_outcome (env : Env) (fs : FileSys) :
  let r := valueOf (findConfigFile env fs) in
  (r.2 = None <-> ∃ p, p ∈ searchPaths env ∧ pathExists fs p)
  ∧ (r.2 = None -> r.1 ∈ searchPaths env ∧ pathExists fs r.1)
  ∧ (r.2 = Some ErrNoLocations
     <-> GOOS_windows env = true
         ∧ Getenv env "USERPROFILE" = "" ∧ Getenv env "APPDATA" = ""
         ∧ Getenv env "PROGRAMDATA" = "" ∧ Executable env = None).
Proof.
  intros r. unfold r.
  assert (searchPaths env = []
          <-> GOOS_windows env = true
              ∧ Getenv env "USERPROFILE" = "" ∧ Getenv env "APPDATA" = ""
              ∧ Getenv env "PROGRAMDATA" = "" ∧ Executable env = None) as Hnil.
  { unfold searchPaths. destruct (GOOS_windows env).
    - rewrite !app_nil, !envPath_nil. destruct (Executable env); [|tauto].
      split; [by intros [_ [=]]|by intros (_ & _ & _ & _ & [=])].
    - split; [|by intros [[=] _]]. intros H. apply app_nil in H as [H _].
      apply app_nil in H as [_ H]. by apply app_nil in H as [H _]. }
  destruct (findConfigFile_run env fs) as (hit & probed & Hfirst & ->).
  rewrite valueOf_run. destruct hit as [p|]; cbn [fst snd].
  - destruct (firstPath_hit _ _ _ _ Hfirst) as [Hin Hex].
    split; [split; [by exists p|done]|]. split; [done|].
    split; [done|]. intros H%Hnil. rewrite H in Hin. by apply elem_of_nil in Hin.
  - apply firstPath_miss in Hfirst. rewrite Forall_forall in Hfirst.
    rewrite <- Hnil. destruct (searchPaths env) as [|first rest]; cbn [fst snd].
    + split; [split; [done|]|]. { intros (p & Hin & _). by apply elem_of_nil in Hin. }
      by split.
    + split; [split; [done|]|]. { intros (p & Hin & Hex). by destruct (Hfirst p). }
      by split.
Qed.

(** ** The variant of the launcher *)

Lemma loadLines_opens fs lines n config q :
  EvOpen q ∉ eventsOf (loadLines lines n config fs).
Proof.
  revert n config. induction lines as [|t rest IH]; intros n config.
  { apply not_elem_of_nil. }
  rewrite loadLines_cons.
  destruct (classify t) as [|v0 p0|err]; [apply IH| |apply not_elem_of_nil].
  cbv zeta.
  specialize (IH (S n) (if bool_decide (kept fs p0)
                        then <[v0 := p0]> config else config)).
  destruct (loadLines rest _ _ fs) as [[r fs'] ev]. rewrite eventsOf_run in *.
  rewrite elem_of_app. intros [Hin|Hin]; [|done].
  unfold entryEvents in Hin. case_bool_decide;
    repeat (apply elem_of_cons in Hin as [[=]|Hin]); by apply elem_of_nil in Hin.
Qed.

Lemma loadConfig_opens fs configPath q :
  EvOpen q ∈ eventsOf (loadConfig configPath fs) -> q = configPath.
Proof.
  rewrite loadConfig_unfold.
  destruct (fs !! configPath) as [nd|].
  - pose proof (loadLines_opens fs (scanNode nd).1 0 ∅ q) as Hno.
    destruct (loadLines (scanNode nd).1 0 ∅ fs) as [[r fs'] ev].
    rewrite eventsOf_run in *. by intros [[=]|Hin]%elem_of_cons.
  - rewrite eventsOf_run. by intros [=]%list_elem_of_singleton.
Qed.

Lemma loadReporting_run configPath fs :
  Legacy.loadReporting configPath fs
  = (valueOf (loadConfig configPath fs), fs,
     eventsOf (loadConfig configPath fs)
     ++ match valueOf (loadConfig configPath fs) with
        | Err e => [EvPrint (MsgErrorLoadingConfig configPath e)]
        | Ok _ => []
        end).
Proof.
  unfold Legacy.loadReporting, bind at 1.
  destruct (loadConfig_harmless configPath fs) as [Hfs _].
  destruct (loadConfig configPath fs) as [[[config|e] fs'] ev].
  - rewrite fsOf_run in Hfs. by subst fs'.
  - rewrite fsOf_run in Hfs. by subst fs'.
Qed.

(** At the bare file name [os.Stat] finds something or reports that
    nothing is there. *)
Lemma configFile_settled fs : settled fs Legacy.configFile.
Proof.
  unfold settled, missing.
  destruct (decide (pathExists fs Legacy.configFile)); [by left|by right].
Qed.

(** What [Legacy.getConfig] does, by the home directory and the path of
    the executable. *)
Lemma getConfig_run env fs :
  Legacy.getConfig env fs
  = let beside :=
      match Executable env with
      | None => (Exit 1%Z, fs, [EvPrint MsgErrorExecutablePath])
      | Some exePath =>
          let '(r, fs', ev) :=
            Legacy.loadReporting
              (Filepath.Join [Filepath.Dir exePath; Legacy.configFile]) fs in
          (Return r, fs', ev)
      end in
    if bool_decide (Getenv env (if GOOS_windows env then "USERPROFILE" else "HOME") = "")
    then match fs !! Legacy.configFile with
         | Some (File _) =>
             let '(r, fs', ev) := Legacy.loadReporting Legacy.configFile fs in
             (Return r, fs', EvStat Legacy.configFile :: ev)
         | _ => let '(r, fs', ev) := beside in (r, fs', EvStat Legacy.configFile :: ev)
         end
    else beside.
Proof.
  unfold Legacy.getConfig, Legacy.UserHomeDir. cbv zeta.
  assert (∀ exePath,
            (r <- Legacy.loadReporting
                    (Filepath.Join [Filepath.Dir exePath; Legacy.configFile]) ;;
             ret (Return r)) fs
            = let '(r, fs', ev) :=
                Legacy.loadReporting
                  (Filepath.Join [Filepath.Dir exePath; Legacy.configFile]) fs in
              (Return r, fs', ev)) as Hbeside.
  { intros exePath. unfold bind, ret.
    destruct (Legacy.loadReporting _ fs) as [[r fs'] ev]. by rewrite app_nil_r. }
  case_bool_decide as Hhome.
  - rewrite Hhome. change (Filepath.Join [""; Legacy.configFile]) with Legacy.configFile.
    unfold bind at 1, Legacy.fileExist.
    destruct (fs !! Legacy.configFile) as [[c|]|].
    + unfold bind, ret. destruct (Legacy.loadReporting _ fs) as [[r fs'] ev].
      by rewrite app_nil_r.
    + destruct (Executable env) as [exePath|]; [|done]. rewrite Hbeside.
      by destruct (Legacy.loadReporting _ fs) as [[r fs'] ev].
    + destruct (Executable env) as [exePath|]; [|done]. rewrite Hbeside.
      by destruct (Legacy.loadReporting _ fs) as [[r fs'] ev].
  - unfold bind at 1, ret at 1.
    destruct (Executable env) as [exePath|]; [|done]. rewrite Hbeside.
    by destruct (Legacy.loadReporting _ fs) as [[r fs'] ev].
Qed.

(** X15: in the variant, a configuration that fails to load does not
    stop the run.  [Legacy.main] drops the error of [Legacy.getConfig],
    goes on with the empty table, reads the markers up to the root and
    asks the PHP on PATH, and only then exits with status 1 for want of
    any version; it writes no marker and starts no child. *)
Theorem X15_legacy_failed_load (env : Env) (fs : FileSys) (cwd : string) (e : error) :
  valueOf (Legacy.getConfig env fs) = Return (Err e) ->
  Getwd env = Some cwd ->
  Legacy.main env fs
  = (1%Z, fs,
     eventsOf (Legacy.getConfig env fs)
     ++ eventsOf (findPhpVersionFile cwd fs)
     ++ [probeEvent; EvPrint MsgNoValidVersion]).
Proof.
  intros Hgot Hcwd.
  assert (fsOf (Legacy.getConfig env fs) = fs) as Hfs.
  { rewrite getConfig_run. cbv zeta.
    assert (∀ p, fsOf (let '(r, fs', ev) := Legacy.loadReporting p fs in
                       (Return r, fs', ev)) = fs) as Hload.
    { intros p. by rewrite loadReporting_run. }
    case_bool_decide.
    - destruct (fs !! Legacy.configFile) as [[c|]|];
        [by rewrite loadReporting_run|..];
        (destruct (Executable env); [rewrite loadReporting_run|]; done).
    - destruct (Executable env); [apply Hload|done]. }
  unfold Legacy.main, bind at 1.
  destruct (Legacy.getConfig env fs) as [[got fs1] e1].
  rewrite valueOf_run in Hgot. rewrite fsOf_run in Hfs. subst got fs1.
  rewrite eventsOf_run, Hcwd. unfold bind at 1.
  destruct (findPhpVersionFile_ancestors fs cwd) as (label & visited & Hrun & _).
  rewrite (getPhpVersion_run env cwd ∅ fs label _ Hrun), Hrun, eventsOf_run.
  assert (∀ v, ¬ usable ∅ v) as Hno.
  { intros v [_ Hv]. unfold index in Hv. by rewrite lookup_empty in Hv. }
  destruct (decide (usable ∅ label)) as [Hu|_]; [by destruct (Hno label)|].
  unfold fallback.
  destruct (decide (usable ∅ (probed env))) as [Hu|_]; [by destruct (Hno (probed env))|].
  destruct (decide (index ∅ defaultVersion ≠ "")) as [Hd|_].
  { unfold index in Hd. by rewrite lookup_empty in Hd. }
  replace (rangeFirst (mapSeed env) ∅) with (@None string)
    by (symmetry; by apply rangeFirst_None).
  unfold ret. by rewrite app_nil_r.
Qed.

(** Nothing lies beside the executable: the variant still walks up from
    the working directory and runs [php --version] before it gives
    up. *)
Lemma X15_legacy_failed_load_witness :
  Legacy.main exampleEnv ∅
  = (1%Z, ∅,
     eventsOf (Legacy.getConfig exampleEnv ∅)
     ++ eventsOf (findPhpVersionFile "/srv/app" ∅)
     ++ [probeEvent; EvPrint MsgNoValidVersion]).
Proof.
  apply (X15_legacy_failed_load exampleEnv ∅ "/srv/app" ErrCannotOpen);
    vm_compute; reflexivity.
Defined.

(** X16: [Legacy.getConfig] changes no file, and the only configuration
    files that it ever opens are the one beside the executable and, when
    the home directory is unknown, the bare name [php-runner.yaml],
    which the system resolves against the working directory.  The test
    [err != nil && fileExist(configPath)] keeps it from the file of a
    home directory that is known. *)
Theorem X16_legacy_config_files (env : Env) (fs : FileSys) :
  let home := Getenv env (if GOOS_windows env then "USERPROFILE" else "HOME") in
  fsOf (Legacy.getConfig env fs) = fs
  ∧ ∀ q, EvOpen q ∈ eventsOf (Legacy.getConfig env fs) ->
      (home = "" ∧ q = Legacy.configFile ∧ ∃ content, fs !! q = Some (File content))
      ∨ ∃ exePath,
          Executable env = Some exePath
          ∧ q = Filepath.Join [Filepath.Dir exePath; Legacy.configFile].
Proof.
  intros home. unfold home. rewrite getConfig_run. cbv zeta.
  assert (∀ p q, EvOpen q ∈ eventsOf (Legacy.loadReporting p fs) -> q = p) as Hopen.
  { intros p q. rewrite loadReporting_run, eventsOf_run, elem_of_app.
    intros [Hin|Hin]; [by apply loadConfig_opens in Hin|].
    destruct (valueOf (loadConfig p fs)).
    - by apply elem_of_nil in Hin.
    - by apply list_elem_of_singleton in Hin. }
  assert (∀ p, Legacy.loadReporting p fs
               = (valueOf (Legacy.loadReporting p fs), fs,
                  eventsOf (Legacy.loadReporting p fs))) as Hshape.
  { intros p. by rewrite loadReporting_run. }
  case_bool_decide as Hhome.
  - destruct (fs !! Legacy.configFile) as [[c|]|] eqn:Hfile.
    + rewrite Hshape, fsOf_run, eventsOf_run. split; [done|].
      intros q [[=]|Hin]%elem_of_cons. apply Hopen in Hin as ->.
      left. split; [done|]. split; [done|]. by exists c.
    + destruct (Executable env) as [exePath|].
      * rewrite Hshape, fsOf_run, eventsOf_run. split; [done|].
        intros q [[=]|Hin]%elem_of_cons. apply Hopen in Hin as ->.
        right. by exists exePath.
      * rewrite fsOf_run, eventsOf_run. split; [done|].
        intros q [[=]|Hin]%elem_of_cons. by apply list_elem_of_singleton in Hin.
    + destruct (Executable env) as [exePath|].
      * rewrite Hshape, fsOf_run, eventsOf_run. split; [done|].
        intros q [[=]|Hin]%elem_of_cons. apply Hopen in Hin as ->.
        right. by exists exePath.
      * rewrite fsOf_run, eventsOf_run. split; [done|].
        intros q [[=]|Hin]%elem_of_cons. by apply list_elem_of_singleton in Hin.
  - destruct (Executable env) as [exePath|].
    + rewrite Hshape, fsOf_run, eventsOf_run. split; [done|].
      intros q Hin. apply Hopen in Hin as ->. right. by exists exePath.
    + rewrite fsOf_run, eventsOf_run. split; [done|].
      intros q Hin. by apply list_elem_of_singleton in Hin.
Qed.
